(** * Job-application automation: board registry, form filling, run driver

    A shallow embedding of [boards.py] and [apply_jobs.py].

    Modelling conventions.
    - Python [str] values are Stdlib strings; URLs, selectors and tokens are
      ASCII, and [str.lower] is the ASCII case mapping.
    - The [BOARDS] dict is an association list, because its insertion order
      decides detection; the per-board [fields] dict is only ever looked up
      and is a [gmap].
    - The browser is an oracle (what a page answers to each call) plus a
      trace of the calls the program made; a call that the program wraps in
      [try/except] may raise, an unguarded call is taken to return.
    - The three state files and the debug dump are an explicit store.
    - Console output, delays and the log timestamp are not modelled. *)

From Stdlib Require Import ZArith Ascii String.
From stdpp Require Import gmap strings list.

(** ** Python string primitives *)

Module PyStr.

Definition lower_char (c : ascii) : ascii :=
  let n := nat_of_ascii c in
  if (65 <=? n)%nat && (n <=? 90)%nat then ascii_of_nat (n + 32) else c.

(** [s.lower()] *)
Fixpoint lower (s : string) : string :=
  match s with
  | EmptyString => EmptyString
  | String c s' => String (lower_char c) (lower s')
  end.

(** [s.startswith(p)] *)
Fixpoint startswith (p s : string) : bool :=
  match p, s with
  | EmptyString, _ => true
  | String _ _, EmptyString => false
  | String a p', String b s' => if decide (a = b) then startswith p' s' else false
  end.

(** [p in s] *)
Fixpoint contains (p s : string) : bool :=
  startswith p s ||
  match s with
  | EmptyString => false
  | String _ s' => contains p s'
  end.

(** What [p in s] means: [p] occurs in [s] as a contiguous block. *)
Definition occurs_in (p s : string) : Prop :=
  ∃ a b, s = a +:+ p +:+ b.

(** [s.replace(old, new)] scans left to right; at each position where
    [old] starts it emits [new] and jumps over the occurrence.  [skip]
    counts the characters of a matched occurrence still to jump over. *)
Fixpoint replace_from (old new : string) (skip : nat) (s : string) : string :=
  match s with
  | EmptyString => EmptyString
  | String c s' =>
      match skip with
      | S k => replace_from old new k s'
      | O =>
          if startswith old s
          then new +:+ replace_from old new (String.length old - 1) s'
          else String c (replace_from old new 0 s')
      end
  end.

(** With an empty [old], Python puts [new] before every character and at
    the end. *)
Fixpoint intersperse_all (new s : string) : string :=
  match s with
  | EmptyString => new
  | String c s' => new +:+ String c (intersperse_all new s')
  end.

Definition replace (old new s : string) : string :=
  match old with
  | EmptyString => intersperse_all new s
  | String _ _ => replace_from old new 0 s
  end.

(** Python's whitespace among the ASCII characters. *)
Definition is_space (c : ascii) : bool :=
  let n := nat_of_ascii c in
  ((9 <=? n)%nat && (n <=? 13)%nat) || ((28 <=? n)%nat && (n <=? 32)%nat).

Fixpoint lstrip (s : string) : string :=
  match s with
  | EmptyString => EmptyString
  | String c s' => if is_space c then lstrip s' else s
  end.

Fixpoint rstrip (s : string) : string :=
  match s with
  | EmptyString => EmptyString
  | String c s' =>
      match rstrip s' with
      | EmptyString => if is_space c then EmptyString else String c EmptyString
      | r => String c r
      end
  end.

(** [s.strip()] *)
Definition strip (s : string) : string := rstrip (lstrip s).

(** [sep.join(parts)] *)
Fixpoint join (sep : string) (parts : list string) : string :=
  match parts with
  | [] => EmptyString
  | [p] => p
  | p :: rest => p +:+ sep +:+ join sep rest
  end.

(** Truthiness of a string: non-empty. *)
Definition truthy (s : string) : bool :=
  match s with EmptyString => false | String _ _ => true end.

End PyStr.

(** ** boards.py *)

Record Board := {
  ident : string;
  name : string;
  search_site : string;
  url_patterns : list string;
  job_title_selectors : list string;
  company_selectors : list string;
  form_selector : string;
  form_in_iframe : bool;
  fields : gmap string (list string);
  linkedin_label : option string
}.

Definition greenhouse : Board := {|
  ident := "greenhouse";
  name := "Greenhouse";
  search_site := "site:boards.greenhouse.io";
  url_patterns := ["boards.greenhouse.io"; "/jobs/"];
  job_title_selectors :=
    ["h1.app-title"; ".app-title"; "h1"; "[data-qa*='job-title']"];
  company_selectors :=
    [".company-name"; ".app-company-name"; "a.company-link"; "[data-qa*='company']"];
  form_selector := "form#application-form";
  form_in_iframe := true;
  fields := list_to_map [
    ("first_name", ["#first_name"; "input[name='first_name']"; "input[id*='first']"]);
    ("last_name", ["#last_name"; "input[name='last_name']"; "input[id*='last']"]);
    ("email", ["#email"; "input[name='email']"; "input[type='email']"]);
    ("phone", ["#phone"; "input[name='phone']"; "input[type='tel']"]);
    ("linkedin_url", ["#job_application_answers_attributes_0_text_value";
                      "input[name*='linkedin']"; "input[id*='linkedin']"]);
    ("resume", ["input[type='file'][name*='resume']";
                "input[type='file'][name*='content']"; "input[type='file']"]);
    ("cover_letter", ["#job_application_cover_letter"; "textarea[name*='cover']";
                      "textarea[id*='cover']"; "textarea[placeholder*='cover']"])
  ];
  linkedin_label := Some "LinkedIn Profile"
|}.

Definition lever : Board := {|
  ident := "lever";
  name := "Lever";
  search_site := "site:jobs.lever.co";
  url_patterns := ["jobs.lever.co"];
  job_title_selectors :=
    ["h2.posting-headline__title"; ".posting-headline h2";
     "h1.posting-headline__title"; "h2"; "h1"];
  company_selectors :=
    [".posting-headline__company"; ".main-header-logo img[alt]";
     "a.posting-header-logo"; "h1 + div"];
  form_selector :=
    "form.posting-form, form[action*='apply'], .postings-btn-wrapper + form";
  form_in_iframe := false;
  fields := list_to_map [
    ("name", ["input[name='name']"; "input#name"; "input[placeholder*='ame']"]);
    ("first_name", ["input[name='firstName']"; "input#firstName";
                    "input[name*='first']"; "#first_name"]);
    ("last_name", ["input[name='lastName']"; "input#lastName";
                   "input[name*='last']"; "#last_name"]);
    ("email", ["input[name='email']"; "input#email"; "input[type='email']"]);
    ("phone", ["input[name='phone']"; "input#phone"; "input[type='tel']"]);
    ("linkedin_url", ["input[name*='linkedin']"; "input[name*='url']";
                      "input[id*='linkedin']"]);
    ("resume", ["input[type='file']"]);
    ("cover_letter", ["textarea[name*='comments']"; "textarea[name*='comment']";
                      "textarea[name*='cover']"; "textarea"])
  ];
  linkedin_label := None
|}.

Definition ashby : Board := {|
  ident := "ashby";
  name := "Ashby";
  search_site := "site:jobs.ashbyhq.com";
  url_patterns := ["jobs.ashbyhq.com"];
  job_title_selectors := ["h1[data-ashby-job-title]"; "h1.job-title"; "h1"];
  company_selectors :=
    ["[data-ashby-company-name]"; ".company-name"; "a[href*='ashbyhq.com']"];
  form_selector := "form[data-ashby-form], form";
  form_in_iframe := false;
  fields := list_to_map [
    ("name", ["input[name*='name']"; "input[placeholder*='ame']"]);
    ("first_name", ["input[name*='firstName']"; "input[name*='first_name']";
                    "#first_name"; "input[id*='first']"]);
    ("last_name", ["input[name*='lastName']"; "input[name*='last_name']";
                   "#last_name"; "input[id*='last']"]);
    ("email", ["input[name*='email']"; "input[type='email']"; "#email"]);
    ("phone", ["input[name*='phone']"; "input[type='tel']"; "#phone"]);
    ("linkedin_url", ["input[name*='linkedin']"; "input[name*='url']";
                      "input[placeholder*='LinkedIn']"]);
    ("resume", ["input[type='file']"]);
    ("cover_letter", ["textarea[name*='cover']"; "textarea[name*='letter']"; "textarea"])
  ];
  linkedin_label := None
|}.

(** The registry, in the order the dict literal lists its keys (the order
    [BOARDS.items()] iterates in). *)
Definition BOARDS : list (string * Board) :=
  [("greenhouse", greenhouse); ("lever", lever); ("ashby", ashby)].

(** [all(p in text for p in board["url_patterns"])] *)
Definition all_patterns_in (text : string) (board : Board) : bool :=
  forallb (λ p, PyStr.contains p text) (url_patterns board).

(** The [for bid, board in BOARDS.items()] loop of [detect_board_from_url]. *)
Fixpoint first_matching_board (url_lower : string) (items : list (string * Board))
  : option string :=
  match items with
  | [] => None
  | (bid, board) :: rest =>
      if all_patterns_in url_lower board then Some bid
      else first_matching_board url_lower rest
  end.

Definition detect_board_from_url (url : string) : option string :=
  let url_lower := PyStr.lower url in
  first_matching_board url_lower BOARDS.

(** [dict.get] on the registry. *)
Fixpoint dict_get {V} (items : list (string * V)) (key : string) : option V :=
  match items with
  | [] => None
  | (k, v) :: rest => if decide (k = key) then Some v else dict_get rest key
  end.

Definition get_board (bid : string) : option Board := dict_get BOARDS bid.

Definition get_search_site (bid : string) : string :=
  match dict_get BOARDS bid with
  | Some board => search_site board
  | None => "site:boards.greenhouse.io"
  end.


(** ** The browser boundary *)

(** A call into the browser library either returns or raises. *)
Inductive Outcome (A : Type) :=
| Returned (a : A)
| Raised.
Arguments Returned {A} a.
Arguments Raised {A}.

(** An element handle: what [inner_text()] and [get_attribute("alt")] give,
    and whether [fill(value)] on it returns ([true]) or raises. *)
Record Element := {
  el_id : nat;
  inner_text : Outcome string;
  alt : Outcome (option string);
  fill_ok : bool
}.

(** A search root: the page's main document or one of its frames. *)
Record Root := {
  query_selector : string → Outcome (option Element);
  wait_for_selector : string → Outcome (option Element);
  label_count : string → Outcome nat;      (* get_by_label(l).count() *)
  label_fill_ok : string → bool;           (* get_by_label(l).fill(v) returns *)
  set_input_files_ok : string → bool       (* set_input_files(sel, path) returns *)
}.

(** A loaded page. *)
Record Page := {
  document : Root;
  frames : list Root;
  content : Outcome string;                (* page.content() *)
  links : list (option string)             (* href of each [a[href]] element *)
}.

(** What the program did to the browser: the actions that took effect and
    the probes it issued, oldest first.  A call that raises leaves the page
    as it was and is not recorded. *)
Inductive Event :=
| Launch
| Close
| Goto (url : string)
| WaitForSelector (sel : string)
| QuerySelector (sel : string)
| QuerySelectorAll (sel : string)
| Fill (el : nat) (value : string)
| FillByLabel (label value : string)
| SetInputFiles (sel path : string)
| AwaitEnter.

#[global] Instance Event_eq_dec : EqDecision Event.
Proof. solve_decision. Defined.

(** The world outside the process: the web and the local file system. *)
Record Env := {
  web : string → Page;
  path_exists : string → bool
}.

(** ** Persisted state *)

(** progress.json.  A key that is absent (or holds something of another
    shape) is [None]; a dict with neither key behaves like the empty one. *)
Record Progress := {
  saved_job_urls : option (list string);
  saved_last_index : option Z
}.

Record LogLine := {
  log_board : string;
  log_company : string;
  log_title : string;
  log_url : string
}.

(** [applied_jobs_json] is the list under the ["urls"] key, [None] when the
    file is missing or unreadable. *)
Record World := {
  applied_jobs_json : option (list string);
  progress_json : option Progress;
  applications_log : list LogLine;
  debug_page_html : option string;
  trace : list Event
}.

Definition Run (A : Type) : Type := World → A * World.

Definition ret {A} (a : A) : Run A := λ w, (a, w).

Definition bind {A B} (m : Run A) (k : A → Run B) : Run B :=
  λ w, let r := m w in k r.1 r.2.

Notation "x <- m ;; k" := (bind m (λ x, k))
  (at level 100, m at next level, right associativity).
Notation "m ;; k" := (bind m (λ _, k))
  (at level 100, right associativity).

(** The world after the browser events [es]; the files are untouched. *)
Definition add_events (es : list Event) (w : World) : World :=
  {| applied_jobs_json := applied_jobs_json w;
     progress_json := progress_json w;
     applications_log := applications_log w;
     debug_page_html := debug_page_html w;
     trace := trace w ++ es |}.

Definition emit (e : Event) : Run unit := λ w, (tt, add_events [e] w).

Definition write_applied (urls : list string) : Run unit :=
  λ w, (tt, {| applied_jobs_json := Some urls;
               progress_json := progress_json w;
               applications_log := applications_log w;
               debug_page_html := debug_page_html w;
               trace := trace w |}).

Definition write_progress (p : option Progress) : Run unit :=
  λ w, (tt, {| applied_jobs_json := applied_jobs_json w;
               progress_json := p;
               applications_log := applications_log w;
               debug_page_html := debug_page_html w;
               trace := trace w |}).

Definition append_log (line : LogLine) : Run unit :=
  λ w, (tt, {| applied_jobs_json := applied_jobs_json w;
               progress_json := progress_json w;
               applications_log := applications_log w ++ [line];
               debug_page_html := debug_page_html w;
               trace := trace w |}).

Definition write_debug_page (html : string) : Run unit :=
  λ w, (tt, {| applied_jobs_json := applied_jobs_json w;
               progress_json := progress_json w;
               applications_log := applications_log w;
               debug_page_html := Some html;
               trace := trace w |}).

(** ** apply_jobs.py: state files *)

Definition load_applied_jobs : Run (gset string) :=
  λ w, (match applied_jobs_json w with
        | None => ∅
        | Some urls => list_to_set urls
        end, w).

(** [list(applied)] enumerates the set in an unspecified order; [elements]
    is one such enumeration. *)
Definition save_applied_job (url : string) : Run unit :=
  applied <- load_applied_jobs ;;
  let applied := applied ∪ {[url]} in
  write_applied (elements applied).

Definition load_progress : Run (option Progress) :=
  λ w, (progress_json w, w).

Definition save_progress (job_urls : list string) (last_index : nat) : Run unit :=
  write_progress (Some {| saved_job_urls := Some job_urls;
                          saved_last_index := Some (Z.of_nat last_index) |}).

Definition clear_progress : Run unit := write_progress None.

Definition log_application (url job_title company board_name : string) : Run unit :=
  append_log {| log_board := board_name; log_company := company;
                log_title := job_title; log_url := url |}.

(** ** apply_jobs.py: configuration *)

(** config.json after [load_config]; a text key that is absent is the empty
    string, [job_urls] absent is the empty list. *)
Record Config := {
  job_urls : list string;
  job_search_query : option string;
  board : option string;
  first_name : string;
  last_name : string;
  email : string;
  phone : string;
  linkedin_url : string;
  resume_path : string;
  cover_letter : string;
  cover_letter_template : string
}.

(** Command-line flags. *)
Record Args := {
  resume : bool;
  arg_board : option string
}.

(** ** apply_jobs.py: search *)

(** The inner [for bid, board in BOARDS.items()] loop over one link: does
    the link belong to a requested board? *)
Fixpoint link_matches (board_id href : string) (items : list (string * Board)) : bool :=
  match items with
  | [] => false
  | (bid, board) :: rest =>
      if negb (bool_decide (board_id = "all")) && negb (bool_decide (bid = board_id))
      then link_matches board_id href rest
      else if all_patterns_in href board then true
      else link_matches board_id href rest
  end.

(** The [for link in found_links] loop, threading [results]. *)
Fixpoint collect_links (board_id : string) (found_links : list (option string))
    (results : list string) : list string :=
  match found_links with
  | [] => results
  | href :: rest =>
      match href with
      | None => collect_links board_id rest results
      | Some href =>
          if negb (PyStr.truthy href) then collect_links board_id rest results
          else if link_matches board_id href BOARDS
               then if bool_decide (href ∈ results)
                    then collect_links board_id rest results
                    else collect_links board_id rest (results ++ [href])
               else collect_links board_id rest results
      end
  end.

(** The selector [a[href*="http"]], whose text contains double quotes. *)
Definition links_ready_selector : string :=
  let q := String (ascii_of_nat 34) EmptyString in
  "a[href*=" +:+ q +:+ "http" +:+ q +:+ "]".

Definition search_url (query board_id : string) : string :=
  let full_query :=
    if bool_decide (board_id = "all") then
      let sites := map (λ b, PyStr.replace "site:" EmptyString (search_site b.2)) BOARDS in
      let site_query := PyStr.join " OR " (map (λ site, "site:" +:+ site) sites) in
      "(" +:+ site_query +:+ ") " +:+ query
    else
      get_search_site board_id +:+ " " +:+ query in
  "https://duckduckgo.com/?q=" +:+ PyStr.replace " " "+" full_query +:+ "&t=h_&ia=web".

Definition search_jobs_via_browser (env : Env) (query board_id : string)
  : Run (list string) :=
  let target := search_url query board_id in
  emit (Goto target) ;;
  let page := web env target in
  emit (WaitForSelector links_ready_selector) ;;
  emit (QuerySelectorAll "a[href]") ;;
  let results := collect_links board_id (links page) [] in
  ret (take 20 results).

(** ** apply_jobs.py: the job page *)

(** First loop of [get_job_context]. *)
Fixpoint find_title (page : Root) (sels : list string) : Run (option string) :=
  match sels with
  | [] => ret None
  | sel :: rest =>
      emit (QuerySelector sel) ;;
      match query_selector page sel with
      | Returned (Some el) =>
          match inner_text el with
          | Returned txt =>
              let t := PyStr.strip txt in
              if PyStr.truthy t && (String.length t <? 200)%nat then ret (Some t)
              else find_title page rest
          | Raised => find_title page rest
          end
      | Returned None => find_title page rest
      | Raised => find_title page rest
      end
  end.

(** [el.inner_text() or el.get_attribute("alt")], or the empty string. *)
Definition text_or_alt (el : Element) : Outcome string :=
  match inner_text el with
  | Raised => Raised
  | Returned txt =>
      if PyStr.truthy txt then Returned txt
      else match alt el with
           | Raised => Raised
           | Returned (Some a) => Returned a
           | Returned None => Returned EmptyString
           end
  end.

(** Second loop of [get_job_context]. *)
Fixpoint find_company (page : Root) (sels : list string) : Run (option string) :=
  match sels with
  | [] => ret None
  | sel :: rest =>
      emit (QuerySelector sel) ;;
      match query_selector page sel with
      | Returned (Some el) =>
          match text_or_alt el with
          | Returned txt =>
              let c := PyStr.strip txt in
              if PyStr.truthy c && (String.length c <? 200)%nat then ret (Some c)
              else find_company page rest
          | Raised => find_company page rest
          end
      | Returned None => find_company page rest
      | Raised => find_company page rest
      end
  end.

Definition get_job_context (page : Page) (b : Board) : Run (string * string) :=
  t <- find_title (document page) (job_title_selectors b) ;;
  c <- find_company (document page) (company_selectors b) ;;
  ret (default "Unknown role" t, default "Unknown company" c).

Definition fill_cover_letter_template (template job_title company : string) : string :=
  PyStr.replace "{company}" company
    (PyStr.replace "{company_name}" company
      (PyStr.replace "{job_title}" job_title template)).

(** The [for frame in page.frames] loop of [find_form]. *)
Fixpoint find_form_in_frames (form_sel : string) (fs : list Root)
  : Run (option (Element * Root)) :=
  match fs with
  | [] => ret None
  | frame :: rest =>
      emit (WaitForSelector form_sel) ;;
      match wait_for_selector frame form_sel with
      | Returned (Some form) => ret (Some (form, frame))
      | _ => find_form_in_frames form_sel rest
      end
  end.

Definition find_form (page : Page) (b : Board) : Run (option (Element * Root)) :=
  let form_sel := form_selector b in
  emit (WaitForSelector form_sel) ;;
  match wait_for_selector (document page) form_sel with
  | Returned (Some form) => ret (Some (form, document page))
  | _ =>
      if form_in_iframe b then find_form_in_frames form_sel (frames page)
      else ret None
  end.

(** The [for sel in selectors] loop of [fill_field]. *)
Fixpoint try_selectors (page_or_frame : Root) (value : string) (sels : list string)
  : Run bool :=
  match sels with
  | [] => ret false
  | sel :: rest =>
      emit (QuerySelector sel) ;;
      match query_selector page_or_frame sel with
      | Returned (Some el) =>
          if fill_ok el then emit (Fill (el_id el) value) ;; ret true
          else try_selectors page_or_frame value rest
      | Returned None => try_selectors page_or_frame value rest
      | Raised => try_selectors page_or_frame value rest
      end
  end.

Definition fill_field (page_or_frame : Root) (field_key value : string)
    (b : Board) (config : Config) : Run bool :=
  if negb (PyStr.truthy value) then ret false
  else
    let selectors := default [] (fields b !! field_key) in
    match selectors with
    | [] => ret false
    | _ :: _ => try_selectors page_or_frame value selectors
    end.

(** The resume-upload loop of [fill_form_with_board]. *)
Fixpoint upload_resume (page_or_frame : Root) (path : string) (sels : list string)
  : Run unit :=
  match sels with
  | [] => ret tt
  | sel :: rest =>
      if set_input_files_ok page_or_frame sel then emit (SetInputFiles sel path)
      else upload_resume page_or_frame path rest
  end.

Definition fill_form_with_board (env : Env) (page_or_frame : Root) (b : Board)
    (config : Config) (job_title company : string) : Run unit :=
  let full_name := PyStr.strip (first_name config +:+ " " +:+ last_name config) in
  fill_field page_or_frame "first_name" (first_name config) b config ;;
  fill_field page_or_frame "last_name" (last_name config) b config ;;
  (if PyStr.truthy full_name
   then fill_field page_or_frame "name" full_name b config ;; ret tt
   else ret tt) ;;
  fill_field page_or_frame "email" (email config) b config ;;
  fill_field page_or_frame "phone" (phone config) b config ;;
  let linkedin := linkedin_url config in
  (if PyStr.truthy linkedin then
     match linkedin_label b with
     | Some label =>
         if PyStr.truthy label then
           match label_count page_or_frame label with
           | Returned n =>
               if (0 <? n)%nat then
                 if label_fill_ok page_or_frame label
                 then emit (FillByLabel label linkedin)
                 else fill_field page_or_frame "linkedin_url" linkedin b config ;; ret tt
               else ret tt
           | Raised =>
               fill_field page_or_frame "linkedin_url" linkedin b config ;; ret tt
           end
         else fill_field page_or_frame "linkedin_url" linkedin b config ;; ret tt
     | None => fill_field page_or_frame "linkedin_url" linkedin b config ;; ret tt
     end
   else ret tt) ;;
  let cover :=
    if PyStr.truthy (cover_letter config) then cover_letter config
    else cover_letter_template config in
  (if PyStr.truthy cover then
     let cover := fill_cover_letter_template cover job_title company in
     fill_field page_or_frame "cover_letter" cover b config ;; ret tt
   else ret tt) ;;
  let path := resume_path config in
  if PyStr.truthy path && path_exists env path then
    let selectors := default ["input[type='file']"] (fields b !! "resume") in
    upload_resume page_or_frame path selectors
  else ret tt.

(** The body of the [try] that dumps the page: the file is opened (and so
    emptied) before [main_page.content()] is evaluated. *)
Definition dump_page (page : Page) : Run unit :=
  match content page with
  | Returned html => write_debug_page html
  | Raised => write_debug_page EmptyString
  end.

Definition apply_to_job (env : Env) (url : string) (config : Config)
    (board_id : string) (index total : nat) : Run bool :=
  match get_board board_id with
  | None => ret false
  | Some b =>
      emit (Goto url) ;;
      let main_page := web env url in
      ctx <- get_job_context main_page b ;;
      let job_title := ctx.1 in
      let company := ctx.2 in
      found <- find_form main_page b ;;
      match found with
      | None => dump_page main_page ;; ret false
      | Some (form, form_page) =>
          fill_form_with_board env form_page b config job_title company ;;
          emit AwaitEnter ;;
          save_applied_job url ;;
          log_application url job_title company (name b) ;;
          ret true
      end
  end.

(** ** apply_jobs.py: the run driver *)

(** [l[start:]] for a Python int [start]: a negative start counts from the
    end, and both ends are clamped. *)
Definition slice_from {A} (l : list A) (start : Z) : list A :=
  let n := Z.of_nat (length l) in
  let first := if (start <? 0)%Z then Z.max 0 (n + start) else Z.min start n in
  drop (Z.to_nat first) l.

(** [x or y] where [x] is a string or [None]. *)
Definition or_else (x : option string) (y : string) : string :=
  match x with
  | Some s => if PyStr.truthy s then s else y
  | None => y
  end.

(** [[u for u in job_urls if u not in applied]] *)
Definition not_applied (applied : gset string) (urls : list string) : list string :=
  filter (λ u, u ∉ applied) urls.

(** A loaded progress dict is truthy when it has at least one key. *)
Definition progress_truthy (p : Progress) : bool :=
  match saved_job_urls p, saved_last_index p with
  | None, None => false
  | _, _ => true
  end.

(** Lines 329-352 of [main]: where the job list comes from, and the
    filtering of a configured list.  Returns [(from_search, job_urls)]. *)
Definition choose_job_list (args : Args) (config : Config) (applied : gset string)
  : Run (bool * list string) :=
  match job_urls config with
  | _ :: _ =>
      let job_urls := job_urls config in
      if resume args then
        progress <- load_progress ;;
        match progress with
        | Some p =>
            if progress_truthy p && bool_decide (saved_job_urls p = Some job_urls)
            then
              let last := default (-1)%Z (saved_last_index p) in
              ret (false, slice_from job_urls (last + 1))
            else ret (false, not_applied applied job_urls)
        | None => ret (false, not_applied applied job_urls)
        end
      else
        clear_progress ;;
        ret (false, not_applied applied job_urls)
  | [] =>
      clear_progress ;;
      ret (true, [])
  end.

(** [main] up to the per-job loop: [Some job_urls] is the list the loop
    will iterate, [None] means [main] has returned. *)
Definition prepare_run (args : Args) (config : Config) (env : Env)
  : Run (option (list string)) :=
  applied <- load_applied_jobs ;;
  src <- choose_job_list args config applied ;;
  let from_search := src.1 in
  let job_urls := src.2 in
  if negb from_search && bool_decide (job_urls = []) then ret None
  else
    emit Launch ;;
    searched <-
      (if from_search then
         let query := default "engineer" (job_search_query config) in
         let board_id := or_else (arg_board args) (default "all" (board config)) in
         found <- search_jobs_via_browser env query board_id ;;
         match found with
         | [] => emit Close ;; ret None
         | _ :: _ => ret (Some (not_applied applied found))
         end
       else ret (Some job_urls)) ;;
    match searched with
    | None => ret None
    | Some [] => emit Close ;; ret None
    | Some job_urls => ret (Some job_urls)
    end.

(** [detect_board_from_url(url) or config.get("board", "greenhouse")] *)
Definition board_for (config : Config) (url : string) : string :=
  or_else (detect_board_from_url url) (default "greenhouse" (board config)).

(** The body of the per-job loop, for the URL at position [i]. *)
Definition process_job (config : Config) (env : Env) (job_urls : list string)
    (i : nat) (url : string) : Run unit :=
  let board_id := board_for config url in
  apply_to_job env url config board_id (i + 1) (length job_urls) ;;
  save_progress job_urls i.

(** [for i, url in enumerate(job_urls)], from position [i] over the URLs
    [todo] still to be visited. *)
Fixpoint per_job_loop (config : Config) (env : Env) (job_urls : list string)
    (i : nat) (todo : list string) : Run unit :=
  match todo with
  | [] => ret tt
  | url :: rest =>
      process_job config env job_urls i url ;;
      per_job_loop config env job_urls (S i) rest
  end.

Definition main (args : Args) (config : Config) (env : Env) : Run unit :=
  prepared <- prepare_run args config env ;;
  match prepared with
  | None => ret tt
  | Some job_urls =>
      per_job_loop config env job_urls 0 job_urls ;;
      clear_progress ;;
      emit Close
  end.

(** A run that the operator kills right after the [k]-th job of the loop
    has been processed and its progress saved. *)
Definition main_interrupted (k : nat) (args : Args) (config : Config) (env : Env)
  : Run unit :=
  prepared <- prepare_run args config env ;;
  match prepared with
  | None => ret tt
  | Some job_urls => per_job_loop config env job_urls 0 (take k job_urls)
  end.

(** * Specifications

    What the properties below are stated against. *)

(** Every URL pattern of board [b] occurs in the lowercased URL. *)
Definition board_matches (url : string) (b : Board) : Prop :=
  Forall (λ p, PyStr.occurs_in p (PyStr.lower url)) (url_patterns b).

(** The claim about ordered probing, read without any condition on the fill
    itself: whenever the selectors before [sel] find nothing and [sel] finds
    [el], the call succeeds having probed up to [sel] and filled [el]. *)
Definition fills_first_present_unconditionally : Prop :=
  ∀ (root : Root) (key value : string) (b : Board) (cfg : Config) (w : World)
    (earlier : list string) (sel : string) (later : list string) (el : Element),
    value ≠ EmptyString →
    fields b !! key = Some (earlier ++ sel :: later) →
    Forall (λ s, query_selector root s = Returned None) earlier →
    query_selector root sel = Returned (Some el) →
    fill_field root key value b cfg w =
    (true, add_events (map QuerySelector earlier ++
                       [QuerySelector sel; Fill (el_id el) value]) w).


(** A cover-letter template seen as a sequence of pieces: literal text and
    the three placeholder tokens. *)
Inductive Piece :=
| Text (s : string)
| JobTitleToken
| CompanyNameToken
| CompanyToken.

(** How a piece is spelled in the template. *)
Definition spell (p : Piece) : string :=
  match p with
  | Text s => s
  | JobTitleToken => "{job_title}"
  | CompanyNameToken => "{company_name}"
  | CompanyToken => "{company}"
  end.

(** What a piece stands for once the job is known. *)
Definition value_of (job_title company : string) (p : Piece) : string :=
  match p with
  | Text s => s
  | JobTitleToken => job_title
  | CompanyNameToken => company
  | CompanyToken => company
  end.

Definition concat_pieces (f : Piece → string) (ps : list Piece) : string :=
  foldr (λ p acc, f p +:+ acc) EmptyString ps.

(** The template text, and the letter with every token occurrence replaced
    by its value. *)
Definition template_of (ps : list Piece) : string := concat_pieces spell ps.

Definition substituted (job_title company : string) (ps : list Piece) : string :=
  concat_pieces (value_of job_title company) ps.

(** The string has no opening brace. *)
Definition brace_free (s : string) : Prop := PyStr.contains "{" s = false.

(** Literal text is told apart from tokens by having no opening brace. *)
Definition plain_text (p : Piece) : Prop :=
  match p with
  | Text s => brace_free s
  | _ => True
  end.

(** The templating claim read for arbitrary extracted values. *)
Definition substitutes_tokens_for_any_values : Prop :=
  ∀ (ps : list Piece) (job_title company : string),
    Forall plain_text ps →
    fill_cover_letter_template (template_of ps) job_title company =
    substituted job_title company ps.

(** The letter between the passes of [fill_cover_letter_template]. *)
Definition after_job_title (job_title : string) (p : Piece) : string :=
  match p with
  | JobTitleToken => job_title
  | _ => spell p
  end.

Definition after_company_name (job_title company : string) (p : Piece) : string :=
  match p with
  | JobTitleToken => job_title
  | CompanyNameToken => company
  | _ => spell p
  end.

(** A computation that only talks to the browser: the files stay as they
    are and the trace grows. *)
Definition only_browses {A} (m : Run A) : Prop :=
  ∀ w, ∃ es, (m w).2 = add_events es w.

(** A computation that never rewrites the trace, only extends it. *)
Definition extends_trace {A} (m : Run A) : Prop :=
  ∀ w, ∃ es, trace (m w).2 = trace w ++ es.

(** No form in the main document nor in any frame of the page. *)
Definition no_form_anywhere (page : Page) (b : Board) : Prop :=
  (∀ form, wait_for_selector (document page) (form_selector b) ≠ Returned (Some form)) ∧
  Forall (λ frame, ∀ form,
            wait_for_selector frame (form_selector b) ≠ Returned (Some form))
         (frames page).

(** The missing-form claim read for every page: the job is reported as not
    filled, the applied set and the log are untouched, and the dump holds the
    content of the page. *)
Definition missing_form_always_dumps_content : Prop :=
  ∀ (env : Env) (url : string) (cfg : Config) (bid : string) (b : Board)
    (i total : nat) (w : World),
    get_board bid = Some b →
    no_form_anywhere (web env url) b →
    let r := apply_to_job env url cfg bid i total w in
    r.1 = false ∧
    applied_jobs_json r.2 = applied_jobs_json w ∧
    applications_log r.2 = applications_log w ∧
    ∃ html, content (web env url) = Returned html ∧ debug_page_html r.2 = Some html.

(** The applied set a run starts from. *)
Definition applied_set (w : World) : gset string := (load_applied_jobs w).1.

(** The search step's board and query, and the links it returns. *)
Definition search_board (args : Args) (config : Config) : string :=
  or_else (arg_board args) (default "all" (board config)).

Definition search_query (config : Config) : string :=
  default "engineer" (job_search_query config).

Definition search_links (args : Args) (config : Config) (env : Env) : list string :=
  let board_id := search_board args config in
  take 20 (collect_links board_id
             (links (web env (search_url (search_query config) board_id))) []).

(** The browser events of the search step. *)
Definition search_events (args : Args) (config : Config) : list Event :=
  [Goto (search_url (search_query config) (search_board args config));
   WaitForSelector links_ready_selector;
   QuerySelectorAll "a[href]"].

(** The worklist before filtering: the configured URLs, or the search
    results when none are configured. *)
Definition current_worklist (args : Args) (config : Config) (env : Env) : list string :=
  match job_urls config with
  | [] => search_links args config env
  | _ :: _ => job_urls config
  end.

(** The URLs the per-job loop of a run iterates over (none when [main]
    returns before the loop). *)
Definition run_list (args : Args) (config : Config) (env : Env) (w : World)
  : list string :=
  default [] (prepare_run args config env w).1.

(** [Some l] for a non-empty [l]. *)
Definition nonempty {A} (l : list A) : option (list A) :=
  match l with
  | [] => None
  | _ :: _ => Some l
  end.

(** The empty-worklist claim read for both sources of the worklist: the run
    ends without any browser event. *)
Definition empty_worklist_precedes_browser : Prop :=
  ∀ (args : Args) (cfg : Config) (env : Env) (w : World),
    run_list args cfg env w = [] →
    trace (main args cfg env w).2 = trace w.

(** The resume claim read for both sources of the worklist: saved progress
    that matches the current worklist makes the run start after the saved
    index. *)
Definition resume_follows_saved_progress : Prop :=
  ∀ (args : Args) (cfg : Config) (env : Env) (w : World) (p : Progress) (idx : Z),
    resume args = true →
    progress_json w = Some p →
    saved_job_urls p = Some (current_worklist args cfg env) →
    saved_last_index p = Some idx →
    (0 ≤ idx)%Z →
    run_list args cfg env w =
    drop (Z.to_nat (idx + 1)) (current_worklist args cfg env).

(** The same run, resumed. *)
Definition resumed (args : Args) : Args :=
  {| resume := true; arg_board := arg_board args |}.

(** The consequence drawn from the saved progress, read for every run: a
    job that an interrupted run attempted (at a position [j] up to the last
    processed one) without recording it as applied is not taken up by the
    resumed run. *)
Definition resume_skips_attempted_jobs : Prop :=
  ∀ (args : Args) (cfg : Config) (env : Env) (w : World) (k j : nat) (url : string),
    j ≤ k →
    run_list args cfg env w !! j = Some url →
    let w' := (main_interrupted (S k) args cfg env w).2 in
    url ∉ applied_set w' →
    url ∉ run_list (resumed args) cfg env w'.

(** * Sample inputs

    Concrete pages, configurations and stores on which the properties are
    exercised. *)

Module Sample.

Definition fresh : World := {|
  applied_jobs_json := None;
  progress_json := None;
  applications_log := [];
  debug_page_html := None;
  trace := []
|}.

Definition profile : Config := {|
  job_urls := [];
  job_search_query := None;
  board := None;
  first_name := "Ada";
  last_name := "Lovelace";
  email := "ada@example.org";
  phone := "555-0100";
  linkedin_url := EmptyString;
  resume_path := EmptyString;
  cover_letter := EmptyString;
  cover_letter_template := "Dear {company}, re {job_title}"
|}.

Definition input (n : nat) (fillable : bool) : Element := {|
  el_id := n;
  inner_text := Returned EmptyString;
  alt := Returned None;
  fill_ok := fillable
|}.

(** A root on which nothing is found and every wait times out. *)
Definition bare : Root := {|
  query_selector := λ _, Returned None;
  wait_for_selector := λ _, Raised;
  label_count := λ _, Returned 0;
  label_fill_ok := λ _, false;
  set_input_files_ok := λ _, false
|}.

(** A root answering [query_selector] from a table. *)
Definition root_of (table : list (string * Element)) : Root := {|
  query_selector := λ sel, Returned (dict_get table sel);
  wait_for_selector := λ _, Raised;
  label_count := λ _, Returned 0;
  label_fill_ok := λ _, false;
  set_input_files_ok := λ _, false
|}.

(** Greenhouse lists three selectors for [email]; here the first finds
    nothing, the second and third find inputs 1 and 2. *)
Definition email_form : Root :=
  root_of [("input[name='email']", input 1 true);
           ("input[type='email']", input 2 true)].

(** The same, but input 1 cannot be filled (its [fill] raises) and the
    third selector finds nothing. *)
Definition email_form_readonly : Root :=
  root_of [("input[name='email']", input 1 false)].

(** Input 1 cannot be filled, input 2 can. *)
Definition email_form_fallback : Root :=
  root_of [("input[name='email']", input 1 false);
           ("input[type='email']", input 2 true)].

(** A job page with no application form, in the document or in its one
    frame. *)
Definition page_without_form : Page := {|
  document := bare;
  frames := [bare];
  content := Returned "<html><body>Position closed</body></html>";
  links := []
|}.

(** The same page, except that reading its content raises. *)
Definition page_unreadable : Page := {|
  document := bare;
  frames := [bare];
  content := Raised;
  links := []
|}.

(** A Lever page whose form is in the main document, with an email input. *)
Definition lever_form : Root := {|
  query_selector := λ sel,
    Returned (dict_get [("input[name='email']", input 1 true)] sel);
  wait_for_selector := λ _, Returned (Some (input 9 false));
  label_count := λ _, Returned 0;
  label_fill_ok := λ _, false;
  set_input_files_ok := λ _, false
|}.

Definition page_with_form : Page := {|
  document := lever_form;
  frames := [];
  content := Returned "<html><body><form class='posting-form'/></body></html>";
  links := []
|}.

Definition url1 : string := "https://jobs.lever.co/acme/1".
Definition url2 : string := "https://jobs.lever.co/acme/2".
Definition url3 : string := "https://jobs.lever.co/acme/3".

(** [url1] has a form, [url3] cannot be read, every other page (the search
    page included) is formless and has no links. *)
Definition site : Env := {|
  web := λ url,
    if bool_decide (url = url1) then page_with_form
    else if bool_decide (url = url3) then page_unreadable
    else page_without_form;
  path_exists := λ _, false
|}.

(** The search page lists [url2] once; every other page is as in [site]. *)
Definition page_of_results : Page := {|
  document := bare;
  frames := [];
  content := Returned "<html><body><a href='https://jobs.lever.co/acme/2'/></body></html>";
  links := [Some url2]
|}.

Definition site_with_results : Env := {|
  web := λ url,
    if bool_decide (url = search_url "engineer" "all") then page_of_results
    else web site url;
  path_exists := λ _, false
|}.

(** The profile with three configured job URLs. *)
Definition profile_with_urls : Config := {|
  job_urls := [url1; url2; url3];
  job_search_query := None;
  board := None;
  first_name := "Ada";
  last_name := "Lovelace";
  email := "ada@example.org";
  phone := "555-0100";
  linkedin_url := EmptyString;
  resume_path := EmptyString;
  cover_letter := EmptyString;
  cover_letter_template := "Dear {company}, re {job_title}"
|}.

(** A store left by an interrupted search run: [url2] was the whole
    worklist and its job, at index 0, has been processed. *)
Definition after_search_run : World := {|
  applied_jobs_json := None;
  progress_json := Some {| saved_job_urls := Some [url2];
                           saved_last_index := Some 0%Z |};
  applications_log := [];
  debug_page_html := None;
  trace := []
|}.

(** A store in which [url1] has already been applied to. *)
Definition applied_once : World := {|
  applied_jobs_json := Some [url1];
  progress_json := None;
  applications_log := [];
  debug_page_html := None;
  trace := []
|}.

(** A store whose progress matches [profile_with_urls] at index 0. *)
Definition stopped_after_first : World := {|
  applied_jobs_json := Some [url1];
  progress_json := Some {| saved_job_urls := Some [url1; url2; url3];
                           saved_last_index := Some 0%Z |};
  applications_log := [];
  debug_page_html := None;
  trace := []
|}.

Definition plain_run : Args := {| resume := false; arg_board := None |}.
Definition resumed_run : Args := {| resume := true; arg_board := None |}.

End Sample.
(** * Further specifications *)

(** A computation that only talks to the browser and whose events all
    satisfy [P]. *)
Definition emits (P : Event → Prop) {A} (m : Run A) : Prop :=
  ∀ w, ∃ es, (m w).2 = add_events es w ∧ Forall P es.

(** The link [href] belongs to a board the search asked for. *)
Definition requested_link (board_id href : string) : Prop :=
  ∃ bid b, (bid, b) ∈ BOARDS ∧
           (board_id = "all" ∨ bid = board_id) ∧
           all_patterns_in href b = true.

(** The board id names a registered board. *)
Definition registered (bid : string) : Prop := is_Some (get_board bid).

#[global] Instance registered_dec (bid : string) : Decision (registered bid).
Proof. unfold registered. apply _. Defined.

(** The URLs navigated to, in order. *)
Definition gotos (es : list Event) : list string :=
  omap (λ e, match e with Goto url => Some url | _ => None end) es.

(** Events of form filling: probes, fills and uploads. *)
Definition form_event (e : Event) : Prop :=
  match e with
  | QuerySelector _ | Fill _ _ | FillByLabel _ _ | SetInputFiles _ _ => True
  | _ => False
  end.

(** Probes, and fills that write exactly [value]. *)
Definition probe_or_fill (value : string) (e : Event) : Prop :=
  match e with
  | QuerySelector _ => True
  | Fill _ v => v = value
  | _ => False
  end.

Definition not_upload (e : Event) : Prop :=
  match e with
  | SetInputFiles _ _ => False
  | _ => True
  end.

Definition not_goto (e : Event) : Prop :=
  match e with
  | Goto _ => False
  | _ => True
  end.

Definition not_enter (e : Event) : Prop :=
  match e with
  | AwaitEnter => False
  | _ => True
  end.


(** A profile with no text to fill and no resume. *)
Definition blank_profile (cfg : Config) : Prop :=
  first_name cfg = EmptyString ∧ last_name cfg = EmptyString ∧
  email cfg = EmptyString ∧ phone cfg = EmptyString ∧
  linkedin_url cfg = EmptyString ∧ resume_path cfg = EmptyString ∧
  cover_letter cfg = EmptyString ∧ cover_letter_template cfg = EmptyString.

(** A computation whose new trace events all satisfy [P] (it may also
    write files). *)
Definition trace_emits (P : Event → Prop) {A} (m : Run A) : Prop :=
  ∀ w, ∃ es, trace (m w).2 = trace w ++ es ∧ Forall P es.

(** A computation that never drops an applied URL or a log line and adds
    no URL outside [urls]: the applied set only grows, within [urls], and the
    log only gets longer. *)
Definition keeps_records (urls : gset string) {A} (m : Run A) : Prop :=
  ∀ w, applied_set w ⊆ applied_set (m w).2 ∧
       applied_set (m w).2 ⊆ applied_set w ∪ urls ∧
       applications_log w `prefix_of` applications_log (m w).2.

(** The URLs of [urls] whose board, detected or configured, is registered. *)
Definition with_known_board (cfg : Config) (urls : list string) : list string :=
  filter (λ u, registered (board_for cfg u)) urls.

(** The navigation a run does before the per-job loop: the search page when
    no URL is configured. *)
Definition search_navigation (args : Args) (cfg : Config) : list string :=
  match job_urls cfg with
  | [] => [search_url (search_query cfg) (search_board args cfg)]
  | _ :: _ => []
  end.

(** Probes of the page: queries and bounded waits. *)
Definition probe_event (e : Event) : Prop :=
  match e with
  | QuerySelector _ | WaitForSelector _ => True
  | _ => False
  end.

(** How often the operator was asked to confirm. *)
Definition confirmations (es : list Event) : nat :=
  length (filter (λ e, e = AwaitEnter) es).

(** Events that happen between the launch and the close of the browser. *)
Definition inside_session (e : Event) : Prop := e ≠ Launch ∧ e ≠ Close.


(** The same configuration without a LinkedIn URL. *)
Definition without_linkedin (cfg : Config) : Config :=
  {| job_urls := job_urls cfg;
     job_search_query := job_search_query cfg;
     board := board cfg;
     first_name := first_name cfg;
     last_name := last_name cfg;
     email := email cfg;
     phone := phone cfg;
     linkedin_url := EmptyString;
     resume_path := resume_path cfg;
     cover_letter := cover_letter cfg;
     cover_letter_template := cover_letter_template cfg |}.

(** * Properties *)

(** ** Strings *)

Module PyStrFacts.
Import PyStr.

Lemma startswith_app (p b : string) : startswith p (p +:+ b) = true.
Proof.
  induction p as [|c p IH]; simpl; [done|].
  by rewrite decide_True.
Qed.

Lemma startswith_split (p s : string) :
  startswith p s = true → ∃ b, s = p +:+ b.
Proof.
  revert s. induction p as [|c p IH]; intros s H; simpl in *.
  - by exists s.
  - destruct s as [|d s]; [done|].
    destruct (decide (c = d)) as [->|]; [|done].
    destruct (IH _ H) as [b ->]. by exists b.
Qed.

Lemma startswith_spec (p s : string) :
  startswith p s = true ↔ ∃ b, s = p +:+ b.
Proof.
  split; [apply startswith_split|]. intros [b ->]. apply startswith_app.
Qed.

Lemma contains_unfold (p s : string) :
  contains p s =
  startswith p s ||
  match s with EmptyString => false | String _ s' => contains p s' end.
Proof. by destruct s. Qed.

(** The executable test [p in s] decides occurrence as a contiguous block. *)
Lemma contains_spec (p s : string) : contains p s = true ↔ occurs_in p s.
Proof.
  unfold occurs_in. split.
  - induction s as [|c s IH]; rewrite contains_unfold; intros H.
    + rewrite orb_false_r in H. apply startswith_split in H as [b ->].
      by exists EmptyString, b.
    + apply orb_true_iff in H as [H|H].
      * apply startswith_split in H as [b ->]. by exists EmptyString, b.
      * destruct (IH H) as (a & b & ->). by exists (String c a), b.
  - intros (a & b & ->). induction a as [|c a IH].
    + change (EmptyString +:+ p +:+ b) with (p +:+ b).
      rewrite contains_unfold. by rewrite startswith_app.
    + change (String c a +:+ p +:+ b) with (String c (a +:+ p +:+ b)).
      rewrite contains_unfold, IH. apply orb_true_r.
Qed.

Lemma contains_false (p s : string) : contains p s = false ↔ ¬ occurs_in p s.
Proof.
  rewrite <- contains_spec. destruct (contains p s); naive_solver.
Qed.

End PyStrFacts.

(** ** Board detection *)

Lemma all_patterns_in_spec (text : string) (b : Board) :
  all_patterns_in text b = true ↔
  Forall (λ p, PyStr.occurs_in p text) (url_patterns b).
Proof.
  unfold all_patterns_in. rewrite forallb_forall, Forall_forall.
  split; intros H p Hp.
  - apply PyStrFacts.contains_spec, H. by apply list_elem_of_In.
  - apply PyStrFacts.contains_spec, H. by apply list_elem_of_In.
Qed.

Lemma first_matching_board_spec (text : string) (items : list (string * Board)) :
  match first_matching_board text items with
  | Some bid =>
      ∃ earlier b later,
        items = earlier ++ (bid, b) :: later ∧
        all_patterns_in text b = true ∧
        Forall (λ kb, all_patterns_in text kb.2 = false) earlier
  | None => Forall (λ kb, all_patterns_in text kb.2 = false) items
  end.
Proof.
  induction items as [|[k b] items IH]; simpl; [by constructor|].
  destruct (all_patterns_in text b) eqn:Hb.
  - exists [], b, items. by repeat split.
  - destruct (first_matching_board text items) as [bid|].
    + destruct IH as (earlier & b' & later & -> & Hm & He).
      exists ((k, b) :: earlier), b', later. repeat split; [done|].
      by constructor.
    + by constructor.
Qed.

(** C1. For every URL, detection returns the id of the first board, in the
    registry order greenhouse, lever, ashby, all of whose URL patterns occur
    in the lowercased URL: every board registered before the chosen one
    fails to match, so of two matching boards the earlier one wins.  It
    returns none exactly when no board's full pattern set matches. *)
Theorem detect_board_from_url_first_match (url : string) :
  map fst BOARDS = ["greenhouse"; "lever"; "ashby"] ∧
  match detect_board_from_url url with
  | Some bid =>
      ∃ earlier b later,
        BOARDS = earlier ++ (bid, b) :: later ∧
        board_matches url b ∧
        Forall (λ kb, ¬ board_matches url kb.2) earlier
  | None => Forall (λ kb, ¬ board_matches url kb.2) BOARDS
  end.
Proof.
  split; [done|].
  unfold detect_board_from_url, board_matches.
  pose proof (first_matching_board_spec (PyStr.lower url) BOARDS) as H.
  destruct (first_matching_board (PyStr.lower url) BOARDS) as [bid|].
  - destruct H as (earlier & b & later & E & Hm & He).
    exists earlier, b, later. split; [done|]. split.
    + by apply all_patterns_in_spec.
    + eapply Forall_impl; [exact He|]. intros kb Hkb Hall.
      apply all_patterns_in_spec in Hall. congruence.
  - eapply Forall_impl; [exact H|]. intros kb Hkb Hall.
    apply all_patterns_in_spec in Hall. congruence.
Qed.

(** A URL that carries both the Greenhouse and the Lever patterns goes to
    Greenhouse, the earlier entry. *)
Example detect_board_tie_break :
  detect_board_from_url "https://boards.greenhouse.io/acme/jobs/7?src=jobs.lever.co"
  = Some "greenhouse".
Proof. reflexivity. Qed.

Example detect_board_case_insensitive :
  detect_board_from_url "https://Jobs.Lever.CO/acme/42" = Some "lever".
Proof. reflexivity. Qed.

Example detect_board_needs_all_patterns :
  detect_board_from_url "https://boards.greenhouse.io/acme" = None.
Proof. reflexivity. Qed.

(** ** The effect layer *)

Lemma add_events_nil (w : World) : add_events [] w = w.
Proof. destruct w. unfold add_events. simpl. by rewrite app_nil_r. Qed.

Lemma add_events_add (es1 es2 : list Event) (w : World) :
  add_events es2 (add_events es1 w) = add_events (es1 ++ es2) w.
Proof. unfold add_events. simpl. by rewrite app_assoc. Qed.

Lemma bind_eq {A B} (m : Run A) (k : A → Run B) (w : World) :
  bind m k w = k (m w).1 (m w).2.
Proof. reflexivity. Qed.

(** ** Field filling *)

Lemma try_selectors_absent (root : Root) (value : string)
    (earlier rest : list string) (w : World) :
  Forall (λ s, query_selector root s = Returned None) earlier →
  try_selectors root value (earlier ++ rest) w =
  try_selectors root value rest (add_events (map QuerySelector earlier) w).
Proof.
  intros H. revert w. induction H as [|s earlier Hs _ IH]; intros w; simpl.
  - by rewrite add_events_nil.
  - rewrite bind_eq. simpl. rewrite Hs, IH, add_events_add. done.
Qed.

Lemma try_selectors_hit (root : Root) (value sel : string) (later : list string)
    (el : Element) (w : World) :
  query_selector root sel = Returned (Some el) →
  fill_ok el = true →
  try_selectors root value (sel :: later) w =
  (true, add_events [QuerySelector sel; Fill (el_id el) value] w).
Proof.
  intros Hq Hf. simpl. rewrite bind_eq. simpl. rewrite Hq, Hf.
  rewrite bind_eq. simpl. by rewrite add_events_add.
Qed.

Lemma try_selectors_rejected (root : Root) (value sel : string) (later : list string)
    (el : Element) (w : World) :
  query_selector root sel = Returned (Some el) →
  fill_ok el = false →
  try_selectors root value (sel :: later) w =
  try_selectors root value later (add_events [QuerySelector sel] w).
Proof.
  intros Hq Hf. simpl. rewrite bind_eq. simpl. by rewrite Hq, Hf.
Qed.

Lemma fill_field_selectors (root : Root) (key value : string) (b : Board)
    (cfg : Config) (sels : list string) (w : World) :
  value ≠ EmptyString →
  fields b !! key = Some sels →
  fill_field root key value b cfg w = try_selectors root value sels w.
Proof.
  intros Hv Hs. unfold fill_field. destruct value; [done|]. simpl.
  rewrite Hs. simpl. by destruct sels.
Qed.

(** C3. Filling with an empty value returns failure and leaves the world,
    and so the page, exactly as it was: no probe is issued and no element is
    filled.  The same holds when the board has no selector list for the
    field key or has an empty one. *)
Theorem fill_field_short_circuits (root : Root) (key value : string) (b : Board)
    (cfg : Config) (w : World) :
  fill_field root key EmptyString b cfg w = (false, w) ∧
  (fields b !! key = None ∨ fields b !! key = Some [] →
   fill_field root key value b cfg w = (false, w)).
Proof.
  split; [done|].
  intros H. unfold fill_field. destruct (PyStr.truthy value); [|done].
  simpl. by destruct H as [-> | ->].
Qed.

(** C4, as amended.  When the selectors before the N-th find no element,
    the N-th finds [el] and filling [el] does not raise, the call probes the
    selectors in list order up to the N-th, fills exactly [el], returns
    success and issues no call for any later selector.  When filling [el]
    raises, the error is swallowed and probing goes on with the later
    selectors. *)
Theorem fill_field_first_present (root : Root) (key value : string) (b : Board)
    (cfg : Config) (w : World) (earlier : list string) (sel : string)
    (later : list string) (el : Element) :
  value ≠ EmptyString →
  fields b !! key = Some (earlier ++ sel :: later) →
  Forall (λ s, query_selector root s = Returned None) earlier →
  query_selector root sel = Returned (Some el) →
  (fill_ok el = true →
   fill_field root key value b cfg w =
   (true, add_events (map QuerySelector earlier ++
                      [QuerySelector sel; Fill (el_id el) value]) w)) ∧
  (fill_ok el = false →
   fill_field root key value b cfg w =
   try_selectors root value later
     (add_events (map QuerySelector earlier ++ [QuerySelector sel]) w)).
Proof.
  intros Hv Hs He Hq.
  rewrite (fill_field_selectors _ _ _ _ _ _ _ Hv Hs).
  rewrite (try_selectors_absent _ _ _ _ _ He).
  split; intros Hf.
  - rewrite (try_selectors_hit _ _ _ _ _ _ Hq Hf). by rewrite add_events_add.
  - rewrite (try_selectors_rejected _ _ _ _ _ _ Hq Hf). by rewrite add_events_add.
Qed.

(** ** Applied-job tracking *)

Lemma filter_eq_absent (url : string) (l : list string) :
  url ∉ l → filter (λ u, u = url) l = [].
Proof.
  induction l as [|x l IH]; intros Hin; [done|].
  apply not_elem_of_cons in Hin as [Hne Hin].
  rewrite filter_cons_False by congruence. by apply IH.
Qed.

Lemma filter_eq_once (url : string) (l : list string) :
  NoDup l → url ∈ l → length (filter (λ u, u = url) l) = 1.
Proof.
  induction 1 as [|x l Hx Hnd IH]; intros Hin.
  - by apply not_elem_of_nil in Hin.
  - destruct (decide (x = url)) as [->|Hne].
    + rewrite filter_cons_True by done. simpl.
      by rewrite filter_eq_absent.
    + rewrite filter_cons_False by done.
      apply elem_of_cons in Hin as [->|Hin]; [done|]. by apply IH.
Qed.

Lemma load_after_save (url : string) (w : World) :
  (load_applied_jobs (save_applied_job url w).2).1 =
  (load_applied_jobs w).1 ∪ {[url]}.
Proof.
  unfold save_applied_job. rewrite bind_eq. simpl.
  apply list_to_set_elements_L.
Qed.

Lemma file_after_save (url : string) (w : World) :
  applied_jobs_json (save_applied_job url w).2 =
  Some (elements ((load_applied_jobs w).1 ∪ {[url]})).
Proof. reflexivity. Qed.

(** C5. Recording a URL twice leaves the persisted list holding that URL
    exactly once (the list has no duplicates at all, and the second
    recording rewrites the very same list); after a recording the loaded set
    is the previous set plus the URL, so nothing recorded before is lost. *)
Theorem save_applied_job_idempotent (url : string) (w : World) :
  let w1 := (save_applied_job url w).2 in
  let w2 := (save_applied_job url w1).2 in
  ∃ urls : list string,
    applied_jobs_json w1 = Some urls ∧
    applied_jobs_json w2 = Some urls ∧
    NoDup urls ∧
    length (filter (λ u, u = url) urls) = 1 ∧
    (load_applied_jobs w1).1 = (load_applied_jobs w).1 ∪ {[url]} ∧
    (load_applied_jobs w).1 ⊆ (load_applied_jobs w1).1 ∧
    (load_applied_jobs w2).1 = (load_applied_jobs w1).1.
Proof.
  intros w1 w2. subst w1 w2.
  exists (elements ((load_applied_jobs w).1 ∪ {[url]})).
  assert (∀ s : gset string, s ∪ {[url]} ∪ {[url]} = s ∪ {[url]}) as Hidem.
  { intros s. by rewrite <- (assoc_L (∪)), (idemp_L (∪)). }
  split; [apply file_after_save|].
  split.
  { by rewrite file_after_save, load_after_save, Hidem. }
  split; [apply NoDup_elements|].
  split.
  { apply filter_eq_once; [apply NoDup_elements|].
    apply elem_of_elements, elem_of_union_r. by apply elem_of_singleton. }
  rewrite !load_after_save, Hidem.
  split; [done|]. split; [apply union_subseteq_l|done].
Qed.

(** *** Field filling on sample pages *)

Lemma fill_field_short_circuits_witness :
  fill_field Sample.email_form "email" EmptyString greenhouse Sample.profile
    Sample.fresh = (false, Sample.fresh) ∧
  fill_field Sample.email_form "name" "Ada Lovelace" greenhouse Sample.profile
    Sample.fresh = (false, Sample.fresh).
Proof.
  split.
  - exact (proj1 (fill_field_short_circuits Sample.email_form "email" EmptyString
                    greenhouse Sample.profile Sample.fresh)).
  - apply (proj2 (fill_field_short_circuits Sample.email_form "name"
                    "Ada Lovelace" greenhouse Sample.profile Sample.fresh)).
    left. reflexivity.
Defined.

Lemma fill_field_first_present_witness :
  fill_field Sample.email_form "email" "ada@example.org" greenhouse
    Sample.profile Sample.fresh =
  (true, add_events [QuerySelector "#email"; QuerySelector "input[name='email']";
                     Fill 1 "ada@example.org"] Sample.fresh).
Proof.
  refine (proj1 (fill_field_first_present Sample.email_form "email"
            "ada@example.org" greenhouse Sample.profile Sample.fresh
            ["#email"] "input[name='email']" ["input[type='email']"]
            (Sample.input 1 true) _ _ _ _) _).
  - discriminate.
  - reflexivity.
  - repeat constructor.
  - reflexivity.
  - reflexivity.
Defined.

(** C4, counterexample.  On [Sample.email_form_readonly] only the second
    selector finds an element, yet the call returns failure and fills
    nothing, because filling that element raises. *)
Lemma fill_field_first_present_needs_fillable :
  ¬ fills_first_present_unconditionally.
Proof.
  intros H.
  specialize (H Sample.email_form_readonly "email" "ada@example.org" greenhouse
                Sample.profile Sample.fresh
                ["#email"] "input[name='email']" ["input[type='email']"]
                (Sample.input 1 false)).
  assert (fill_field Sample.email_form_readonly "email" "ada@example.org"
            greenhouse Sample.profile Sample.fresh =
          (false, add_events [QuerySelector "#email";
                              QuerySelector "input[name='email']";
                              QuerySelector "input[type='email']"] Sample.fresh))
    as E by reflexivity.
  rewrite H in E; [discriminate E|discriminate|reflexivity| |reflexivity].
  repeat constructor.
Qed.

(** When the element found first rejects the fill, a later selector's
    element is filled instead. *)
Example fill_field_falls_through :
  fill_field Sample.email_form_fallback "email" "ada@example.org" greenhouse
    Sample.profile Sample.fresh =
  (true, add_events [QuerySelector "#email"; QuerySelector "input[name='email']";
                     QuerySelector "input[type='email']";
                     Fill 2 "ada@example.org"] Sample.fresh).
Proof. reflexivity. Qed.

(** *** Applied-job tracking on a sample store *)

Example save_applied_job_twice :
  let w1 := (save_applied_job "https://jobs.lever.co/acme/1" Sample.fresh).2 in
  let w2 := (save_applied_job "https://jobs.lever.co/acme/1" w1).2 in
  applied_jobs_json w2 = Some ["https://jobs.lever.co/acme/1"].
Proof. reflexivity. Qed.

(** ** Cover-letter templating *)

Section Replace.
Import PyStr.

Lemma app_cons (c : ascii) (a b : string) : String c a +:+ b = String c (a +:+ b).
Proof. reflexivity. Qed.

Lemma app_empty_l (b : string) : EmptyString +:+ b = b.
Proof. reflexivity. Qed.

Lemma app_assoc_str (a b c : string) : (a +:+ b) +:+ c = a +:+ b +:+ c.
Proof. induction a as [|x a IH]; [done|]. by rewrite !app_cons, IH. Qed.

Lemma brace_free_cons (c : ascii) (s : string) :
  brace_free (String c s) → c ≠ "{"%char ∧ brace_free s.
Proof.
  unfold brace_free. rewrite PyStrFacts.contains_unfold. simpl.
  destruct (decide ("{"%char = c)) as [<-|Hne]; [done|]. simpl. naive_solver.
Qed.

Variables (tail new : string).
Let old : string := String "{" tail.

(** Characters being jumped over are dropped. *)
Lemma replace_from_skip (s rest : string) :
  replace_from old new (String.length s) (s +:+ rest) = replace_from old new 0 rest.
Proof.
  induction s as [|c s IH]; [by destruct rest|].
  rewrite app_cons. simpl. apply IH.
Qed.

(** An occurrence at the head is replaced. *)
Lemma replace_from_hit (rest : string) :
  replace_from old new 0 (old +:+ rest) = new +:+ replace_from old new 0 rest.
Proof.
  unfold old at 2. rewrite app_cons.
  change (replace_from old new 0 (String "{" (tail +:+ rest)))
    with (if startswith old (old +:+ rest)
          then new +:+ replace_from old new (String.length old - 1) (tail +:+ rest)
          else String "{" (replace_from old new 0 (tail +:+ rest))).
  rewrite PyStrFacts.startswith_app. f_equal.
  replace (String.length old - 1) with (String.length tail)
    by (unfold old; simpl; lia).
  apply replace_from_skip.
Qed.

(** A character other than the opening brace is copied. *)
Lemma replace_from_other_char (c : ascii) (s : string) :
  c ≠ "{"%char →
  replace_from old new 0 (String c s) = String c (replace_from old new 0 s).
Proof.
  intros Hc. unfold old. simpl. by rewrite decide_False.
Qed.

(** Text without an opening brace is copied. *)
Lemma replace_from_brace_free (s rest : string) :
  brace_free s →
  replace_from old new 0 (s +:+ rest) = s +:+ replace_from old new 0 rest.
Proof.
  induction s as [|c s IH]; intros Hs; [done|].
  apply brace_free_cons in Hs as [Hc Hs].
  rewrite !app_cons, replace_from_other_char by done. by rewrite IH.
Qed.

(** Another token, spelled ["{" ++ body], is copied when [old] does not
    start where it starts. *)
Lemma replace_from_other_token (body rest : string) :
  brace_free body →
  startswith old (String "{" body +:+ rest) = false →
  replace_from old new 0 (String "{" body +:+ rest) =
  String "{" body +:+ replace_from old new 0 rest.
Proof.
  intros Hb Hs. rewrite !app_cons in *.
  change (replace_from old new 0 (String "{" (body +:+ rest)))
    with (if startswith old (String "{" (body +:+ rest))
          then new +:+ replace_from old new (String.length old - 1) (body +:+ rest)
          else String "{" (replace_from old new 0 (body +:+ rest))).
  rewrite Hs. f_equal. by apply replace_from_brace_free.
Qed.

End Replace.

Lemma concat_pieces_cons (f : Piece → string) (p : Piece) (ps : list Piece) :
  concat_pieces f (p :: ps) = f p +:+ concat_pieces f ps.
Proof. reflexivity. Qed.

Lemma pass_job_title (job_title : string) (ps : list Piece) :
  Forall plain_text ps →
  PyStr.replace "{job_title}" job_title (template_of ps) =
  concat_pieces (after_job_title job_title) ps.
Proof.
  change (PyStr.replace "{job_title}" job_title)
    with (PyStr.replace_from (String "{" "job_title}") job_title 0).
  induction 1 as [|p ps Hp _ IH]; [done|].
  unfold template_of in *. rewrite !concat_pieces_cons, <- IH.
  destruct p as [s| | |]; unfold spell, after_job_title.
  - by rewrite replace_from_brace_free.
  - rewrite (replace_from_hit "job_title}"). done.
  - rewrite (replace_from_other_token "job_title}" _ "company_name}") by done. done.
  - rewrite (replace_from_other_token "job_title}" _ "company}") by done. done.
Qed.

Lemma pass_company_name (job_title company : string) (ps : list Piece) :
  brace_free job_title →
  Forall plain_text ps →
  PyStr.replace "{company_name}" company (concat_pieces (after_job_title job_title) ps) =
  concat_pieces (after_company_name job_title company) ps.
Proof.
  intros Ht.
  change (PyStr.replace "{company_name}" company)
    with (PyStr.replace_from (String "{" "company_name}") company 0).
  induction 1 as [|p ps Hp _ IH]; [done|].
  rewrite !concat_pieces_cons, <- IH.
  destruct p as [s| | |]; unfold spell, after_job_title, after_company_name.
  - by rewrite replace_from_brace_free.
  - by rewrite replace_from_brace_free.
  - rewrite (replace_from_hit "company_name}"). done.
  - rewrite (replace_from_other_token "company_name}" _ "company}") by done. done.
Qed.

Lemma pass_company (job_title company : string) (ps : list Piece) :
  brace_free job_title →
  brace_free company →
  Forall plain_text ps →
  PyStr.replace "{company}" company
    (concat_pieces (after_company_name job_title company) ps) =
  substituted job_title company ps.
Proof.
  intros Ht Hc.
  change (PyStr.replace "{company}" company)
    with (PyStr.replace_from (String "{" "company}") company 0).
  induction 1 as [|p ps Hp _ IH]; [done|].
  unfold substituted in *. rewrite !concat_pieces_cons, <- IH.
  destruct p as [s| | |]; unfold spell, after_company_name, value_of.
  - by rewrite replace_from_brace_free.
  - by rewrite replace_from_brace_free.
  - by rewrite replace_from_brace_free.
  - rewrite (replace_from_hit "company}"). done.
Qed.

(** C6, as amended.  The template ["Dear {company}, re {job_title}"] with
    company ["Acme"] and title ["SRE"] gives exactly ["Dear Acme, re SRE"].
    In general the three tokens are replaced one after the other
    ([{job_title}], then [{company_name}], then [{company}]); when neither
    the literal text of the template nor the extracted title and company
    contain an opening brace, the result is the template with every token
    occurrence replaced by its value. *)
Theorem fill_cover_letter_template_substitutes
    (ps : list Piece) (job_title company : string) :
  Forall plain_text ps →
  brace_free job_title →
  brace_free company →
  fill_cover_letter_template "Dear {company}, re {job_title}" "SRE" "Acme"
    = "Dear Acme, re SRE" ∧
  fill_cover_letter_template (template_of ps) job_title company =
    substituted job_title company ps.
Proof.
  intros Hps Ht Hc. split; [reflexivity|].
  unfold fill_cover_letter_template.
  rewrite pass_job_title, pass_company_name, pass_company; done.
Qed.

Lemma fill_cover_letter_template_substitutes_witness :
  fill_cover_letter_template "Dear {company}, re {job_title}" "SRE" "Acme"
    = "Dear Acme, re SRE" ∧
  fill_cover_letter_template
    (template_of [Text "To "; CompanyNameToken; Text ": "; JobTitleToken;
                  Text " at "; CompanyToken; Text "."])
    "Site Reliability Engineer" "Acme Ltd"
  = "To Acme Ltd: Site Reliability Engineer at Acme Ltd.".
Proof.
  apply (fill_cover_letter_template_substitutes
           [Text "To "; CompanyNameToken; Text ": "; JobTitleToken;
            Text " at "; CompanyToken; Text "."]
           "Site Reliability Engineer" "Acme Ltd").
  - repeat constructor.
  - reflexivity.
  - reflexivity.
Defined.

(** C6, counterexample.  A job title that itself reads [{company}] is
    replaced again by the later pass: the template [{job_title}] yields the
    company, not the title. *)
Lemma fill_cover_letter_template_rescans_values :
  ¬ substitutes_tokens_for_any_values.
Proof.
  intros H.
  specialize (H [JobTitleToken] "{company}" "Acme").
  assert (fill_cover_letter_template (template_of [JobTitleToken]) "{company}" "Acme"
          = "Acme") as E by reflexivity.
  rewrite H in E; [discriminate E|].
  repeat constructor.
Qed.

(** Literal text with a stray opening brace can join a value into a token:
    here the title completes [{company_name}], which the next pass replaces. *)
Example fill_cover_letter_template_joins_text :
  fill_cover_letter_template "{company{job_title}}" "_name" "Acme" = "Acme".
Proof. reflexivity. Qed.

(** ** Which parts of the world each step touches *)

Lemma only_browses_ret {A} (a : A) : only_browses (ret a).
Proof. intros w. exists []. simpl. by rewrite add_events_nil. Qed.

Lemma only_browses_emit (e : Event) : only_browses (emit e).
Proof. intros w. by exists [e]. Qed.

Lemma only_browses_bind {A B} (m : Run A) (k : A → Run B) :
  only_browses m → (∀ a, only_browses (k a)) → only_browses (bind m k).
Proof.
  intros Hm Hk w. rewrite bind_eq.
  destruct (Hm w) as [es1 E1]. destruct (Hk (m w).1 (m w).2) as [es2 E2].
  exists (es1 ++ es2). by rewrite E2, E1, add_events_add.
Qed.

Ltac browsing :=
  repeat first
    [ assumption
    | apply only_browses_ret
    | apply only_browses_emit
    | apply only_browses_bind; [|intros ?]
    | match goal with
      | |- only_browses (match ?x with _ => _ end) => destruct x
      | |- only_browses (let _ := _ in _) => cbv zeta
      end ].

Lemma find_title_browses (page : Root) (sels : list string) :
  only_browses (find_title page sels).
Proof. induction sels as [|sel rest IH]; simpl; browsing. Qed.

Lemma find_company_browses (page : Root) (sels : list string) :
  only_browses (find_company page sels).
Proof. induction sels as [|sel rest IH]; simpl; browsing. Qed.

Lemma get_job_context_browses (page : Page) (b : Board) :
  only_browses (get_job_context page b).
Proof.
  unfold get_job_context.
  apply only_browses_bind; [apply find_title_browses|intros t].
  apply only_browses_bind; [apply find_company_browses|intros c].
  apply only_browses_ret.
Qed.

Lemma find_form_in_frames_browses (form_sel : string) (fs : list Root) :
  only_browses (find_form_in_frames form_sel fs).
Proof. induction fs as [|frame rest IH]; simpl; browsing. Qed.

Lemma find_form_browses (page : Page) (b : Board) : only_browses (find_form page b).
Proof.
  unfold find_form. pose proof (find_form_in_frames_browses (form_selector b) (frames page)).
  browsing.
Qed.

Lemma try_selectors_browses (root : Root) (value : string) (sels : list string) :
  only_browses (try_selectors root value sels).
Proof. induction sels as [|sel rest IH]; simpl; browsing. Qed.

Lemma fill_field_browses (root : Root) (key value : string) (b : Board) (cfg : Config) :
  only_browses (fill_field root key value b cfg).
Proof.
  unfold fill_field.
  pose proof (try_selectors_browses root value (default [] (fields b !! key))).
  destruct (negb (PyStr.truthy value)); [apply only_browses_ret|].
  cbv zeta. destruct (default [] (fields b !! key)); [apply only_browses_ret|done].
Qed.

Lemma upload_resume_browses (root : Root) (path : string) (sels : list string) :
  only_browses (upload_resume root path sels).
Proof. induction sels as [|sel rest IH]; simpl; browsing. Qed.

Lemma fill_form_with_board_browses (env : Env) (root : Root) (b : Board)
    (cfg : Config) (job_title company : string) :
  only_browses (fill_form_with_board env root b cfg job_title company).
Proof.
  unfold fill_form_with_board.
  pose proof (fill_field_browses root) as Hf.
  pose proof (upload_resume_browses root) as Hu.
  cbv zeta.
  repeat first
    [ apply Hf | apply Hu
    | apply only_browses_ret
    | apply only_browses_emit
    | apply only_browses_bind; [|intros ?]
    | match goal with
      | |- only_browses (match ?x with _ => _ end) => destruct x
      end ].
Qed.

Lemma search_jobs_via_browser_browses (env : Env) (query bid : string) :
  only_browses (search_jobs_via_browser env query bid).
Proof. unfold search_jobs_via_browser. browsing. Qed.

Lemma only_browses_extends {A} (m : Run A) : only_browses m → extends_trace m.
Proof. intros H w. destruct (H w) as [es E]. exists es. by rewrite E. Qed.

Lemma extends_trace_ret {A} (a : A) : extends_trace (ret a).
Proof. apply only_browses_extends, only_browses_ret. Qed.

Lemma extends_trace_bind {A B} (m : Run A) (k : A → Run B) :
  extends_trace m → (∀ a, extends_trace (k a)) → extends_trace (bind m k).
Proof.
  intros Hm Hk w. rewrite bind_eq.
  destruct (Hm w) as [es1 E1]. destruct (Hk (m w).1 (m w).2) as [es2 E2].
  exists (es1 ++ es2). by rewrite E2, E1, app_assoc.
Qed.

Lemma extends_trace_write_applied (urls : list string) :
  extends_trace (write_applied urls).
Proof. intros w. exists []. simpl. by rewrite app_nil_r. Qed.

Lemma extends_trace_write_progress (p : option Progress) :
  extends_trace (write_progress p).
Proof. intros w. exists []. simpl. by rewrite app_nil_r. Qed.

Lemma extends_trace_append_log (line : LogLine) : extends_trace (append_log line).
Proof. intros w. exists []. simpl. by rewrite app_nil_r. Qed.

Lemma extends_trace_write_debug_page (html : string) :
  extends_trace (write_debug_page html).
Proof. intros w. exists []. simpl. by rewrite app_nil_r. Qed.

Lemma extends_trace_load_applied_jobs : extends_trace load_applied_jobs.
Proof. intros w. exists []. simpl. by rewrite app_nil_r. Qed.

Lemma extends_trace_load_progress : extends_trace load_progress.
Proof. intros w. exists []. simpl. by rewrite app_nil_r. Qed.

Ltac extending :=
  repeat first
    [ assumption
    | apply extends_trace_ret
    | apply extends_trace_write_applied
    | apply extends_trace_write_progress
    | apply extends_trace_append_log
    | apply extends_trace_write_debug_page
    | apply extends_trace_load_applied_jobs
    | apply extends_trace_load_progress
    | apply only_browses_extends, only_browses_emit
    | apply only_browses_extends, get_job_context_browses
    | apply only_browses_extends, find_form_browses
    | apply only_browses_extends, fill_form_with_board_browses
    | apply only_browses_extends, search_jobs_via_browser_browses
    | apply extends_trace_bind; [|intros ?]
    | match goal with
      | |- extends_trace (match ?x with _ => _ end) => destruct x
      | |- extends_trace (let _ := _ in _) => cbv zeta
      end ].

Lemma extends_trace_save_applied_job (url : string) :
  extends_trace (save_applied_job url).
Proof. unfold save_applied_job. extending. Qed.

Lemma extends_trace_dump_page (page : Page) : extends_trace (dump_page page).
Proof. unfold dump_page. extending. Qed.

(** What is left of [apply_to_job] once the board is known and the job page
    has been requested. *)
Lemma extends_trace_apply_to_job (env : Env) (url : string) (cfg : Config)
    (bid : string) (i total : nat) :
  extends_trace (apply_to_job env url cfg bid i total).
Proof.
  unfold apply_to_job, log_application.
  pose proof (extends_trace_save_applied_job url).
  pose proof (extends_trace_dump_page (web env url)).
  extending.
Qed.

Lemma apply_to_job_navigates (env : Env) (url : string) (cfg : Config)
    (bid : string) (b : Board) (i total : nat) (w : World) :
  get_board bid = Some b →
  ∃ es, trace (apply_to_job env url cfg bid i total w).2 = trace w ++ Goto url :: es.
Proof.
  intros Hb. unfold apply_to_job. rewrite Hb. rewrite bind_eq.
  match goal with
  | |- ∃ es, trace (?k ?a ?w1).2 = _ =>
      assert (extends_trace (k a)) as Hk
  end.
  { unfold log_application.
    pose proof (extends_trace_save_applied_job url).
    pose proof (extends_trace_dump_page (web env url)).
    extending. }
  destruct (Hk (emit (Goto url) w).2) as [es E].
  exists es. rewrite E. simpl. by rewrite <- app_assoc.
Qed.

Lemma apply_to_job_unknown_board (env : Env) (url : string) (cfg : Config)
    (bid : string) (i total : nat) (w : World) :
  get_board bid = None →
  apply_to_job env url cfg bid i total w = (false, w).
Proof. intros Hb. unfold apply_to_job. by rewrite Hb. Qed.

Lemma extends_trace_process_job (cfg : Config) (env : Env) (job_urls : list string)
    (i : nat) (url : string) :
  extends_trace (process_job cfg env job_urls i url).
Proof.
  unfold process_job, save_progress.
  pose proof (extends_trace_apply_to_job env url cfg (board_for cfg url) (i + 1)
                (length job_urls)).
  extending.
Qed.

Lemma extends_trace_per_job_loop (cfg : Config) (env : Env) (job_urls : list string)
    (todo : list string) (i : nat) :
  extends_trace (per_job_loop cfg env job_urls i todo).
Proof.
  revert i. induction todo as [|url rest IH]; intros i; simpl.
  - apply extends_trace_ret.
  - apply extends_trace_bind; [apply extends_trace_process_job|intros _; apply IH].
Qed.

(** Every URL of the loop whose board is registered is navigated to,
    whatever happened on the URLs before it. *)
Lemma per_job_loop_visits (cfg : Config) (env : Env) (job_urls todo : list string)
    (i : nat) (w : World) (next : string) :
  next ∈ todo →
  is_Some (get_board (board_for cfg next)) →
  Goto next ∈ trace (per_job_loop cfg env job_urls i todo w).2.
Proof.
  intros Hin [b Hb]. revert i w.
  induction todo as [|url rest IH]; intros i w; [by apply not_elem_of_nil in Hin|].
  simpl. rewrite bind_eq.
  destruct (decide (next = url)) as [->|Hne].
  - destruct (extends_trace_per_job_loop cfg env job_urls rest (S i)
                (process_job cfg env job_urls i url w).2) as [es E].
    rewrite E. apply elem_of_app. left.
    unfold process_job. rewrite bind_eq. simpl.
    destruct (apply_to_job_navigates env url cfg _ b (i + 1) (length job_urls) w Hb)
      as [es' E'].
    rewrite E'. apply elem_of_app. right. apply elem_of_cons. by left.
  - apply elem_of_cons in Hin as [?|Hin]; [done|]. by apply IH.
Qed.

(** ** A job page without a form *)

Lemma find_form_in_frames_none (form_sel : string) (fs : list Root) (w : World) :
  Forall (λ frame, ∀ form, wait_for_selector frame form_sel ≠ Returned (Some form)) fs →
  (find_form_in_frames form_sel fs w).1 = None.
Proof.
  intros H. revert w. induction H as [|frame rest Hf _ IH]; intros w; [done|].
  simpl. rewrite bind_eq. simpl.
  destruct (wait_for_selector frame form_sel) as [[form|]|] eqn:E; try apply IH.
  by destruct (Hf form).
Qed.

Lemma find_form_none (page : Page) (b : Board) (w : World) :
  no_form_anywhere page b → (find_form page b w).1 = None.
Proof.
  intros [Hdoc Hframes]. unfold find_form. cbv zeta. rewrite bind_eq. simpl.
  destruct (wait_for_selector (document page) (form_selector b)) as [[form|]|] eqn:E.
  - by destruct (Hdoc form).
  - destruct (form_in_iframe b); [by apply find_form_in_frames_none|done].
  - destruct (form_in_iframe b); [by apply find_form_in_frames_none|done].
Qed.

(** With no form on the page, [apply_to_job] browses, dumps the page and
    reports failure. *)
Lemma apply_to_job_no_form (env : Env) (url : string) (cfg : Config) (bid : string)
    (b : Board) (i total : nat) (w : World) :
  get_board bid = Some b →
  no_form_anywhere (web env url) b →
  ∃ es, apply_to_job env url cfg bid i total w =
        (false, (dump_page (web env url) (add_events (Goto url :: es) w)).2).
Proof.
  intros Hb Hnone. unfold apply_to_job. rewrite Hb. cbv zeta.
  rewrite bind_eq. simpl.
  rewrite bind_eq.
  destruct (get_job_context_browses (web env url) b (add_events [Goto url] w))
    as [es1 E1].
  rewrite E1, add_events_add.
  rewrite bind_eq.
  destruct (find_form_browses (web env url) b (add_events ([Goto url] ++ es1) w))
    as [es2 E2].
  rewrite E2, add_events_add, find_form_none by done.
  exists (es1 ++ es2). rewrite bind_eq. reflexivity.
Qed.

(** C7, as amended.  When the board of the job is registered and the page
    has no form in its main document nor in any frame, processing the job
    returns failure, leaves the applied-jobs file and the application log as
    they were, and writes the page content to the debug dump whenever that
    content can be read (when reading it raises, the dump is left empty);
    and the loop goes on: every later URL with a registered board is still
    navigated to. *)
Theorem job_without_form_is_skipped (cfg : Config) (env : Env)
    (job_urls : list string) (i : nat) (url : string) (rest : list string)
    (b : Board) (w : World) :
  get_board (board_for cfg url) = Some b →
  no_form_anywhere (web env url) b →
  let r := apply_to_job env url cfg (board_for cfg url) (i + 1) (length job_urls) w in
  r.1 = false ∧
  applied_jobs_json r.2 = applied_jobs_json w ∧
  applications_log r.2 = applications_log w ∧
  (∀ html, content (web env url) = Returned html → debug_page_html r.2 = Some html) ∧
  (content (web env url) = Raised → debug_page_html r.2 = Some EmptyString) ∧
  (∀ next, next ∈ rest → is_Some (get_board (board_for cfg next)) →
     Goto next ∈ trace (per_job_loop cfg env job_urls i (url :: rest) w).2).
Proof.
  intros Hb Hnone r. subst r.
  destruct (apply_to_job_no_form env url cfg _ b (i + 1) (length job_urls) w Hb Hnone)
    as [es E].
  rewrite E. unfold dump_page.
  repeat split.
  - by destruct (content (web env url)).
  - by destruct (content (web env url)).
  - intros html ->. done.
  - intros ->. done.
  - intros next Hin Hnext. apply per_job_loop_visits; [|done].
    apply elem_of_cons. by right.
Qed.

Lemma job_without_form_is_skipped_witness :
  let cfg := Sample.profile in
  let r := apply_to_job Sample.site Sample.url2 cfg (board_for cfg Sample.url2)
             (0 + 1) 2 Sample.fresh in
  r.1 = false ∧
  applied_jobs_json r.2 = None ∧
  applications_log r.2 = [] ∧
  debug_page_html r.2 = Some "<html><body>Position closed</body></html>" ∧
  Goto Sample.url1 ∈
    trace (per_job_loop cfg Sample.site [Sample.url2; Sample.url1] 0
             [Sample.url2; Sample.url1] Sample.fresh).2.
Proof.
  intros cfg r.
  pose proof (job_without_form_is_skipped cfg Sample.site
                [Sample.url2; Sample.url1] 0 Sample.url2 [Sample.url1] lever
                Sample.fresh) as H.
  destruct H as (H1 & H2 & H3 & H4 & _ & H6).
  - reflexivity.
  - split; [intros form; discriminate|].
    repeat constructor; intros form; discriminate.
  - split; [exact H1|]. split; [exact H2|]. split; [exact H3|].
    split; [by apply H4|].
    apply H6; [apply list_elem_of_singleton; reflexivity|].
    exists lever. reflexivity.
Defined.

(** C7, counterexample.  On [Sample.url3] the page has no form and its
    content cannot be read: no dump of the page content is produced. *)
Lemma missing_form_dump_can_fail : ¬ missing_form_always_dumps_content.
Proof.
  intros H.
  destruct (H Sample.site Sample.url3 Sample.profile "lever" lever 1 1 Sample.fresh)
    as (_ & _ & _ & html & Hc & _).
  - reflexivity.
  - split; [intros form; discriminate|].
    repeat constructor; intros form; discriminate.
  - discriminate Hc.
Qed.

Example missing_form_dump_left_empty :
  apply_to_job Sample.site Sample.url3 Sample.profile "lever" 1 1 Sample.fresh =
  (false,
   {| applied_jobs_json := None; progress_json := None; applications_log := [];
      debug_page_html := Some EmptyString;
      trace := Goto Sample.url3 ::
               map QuerySelector (job_title_selectors lever ++ company_selectors lever)
               ++ [WaitForSelector (form_selector lever)] |}).
Proof. reflexivity. Qed.

(** ** Building the worklist *)

Lemma default_nonempty {A} (l : list A) : default [] (nonempty l) = l.
Proof. by destruct l. Qed.

(** The world after choosing the job list differs from the initial one at
    most in the progress file. *)
Lemma choose_job_list_world (args : Args) (cfg : Config) (applied : gset string)
    (w : World) :
  (choose_job_list args cfg applied w).2 = w ∨
  (choose_job_list args cfg applied w).2 = (clear_progress w).2.
Proof.
  unfold choose_job_list.
  destruct (job_urls cfg); [by right|].
  destruct (resume args); [|by right].
  rewrite bind_eq. simpl.
  destruct (progress_json w) as [p|]; [|by left].
  by destruct (progress_truthy p && _); left.
Qed.

Lemma choose_job_list_manual (args : Args) (cfg : Config) (applied : gset string)
    (w : World) :
  job_urls cfg ≠ [] → (choose_job_list args cfg applied w).1.1 = false.
Proof.
  intros Hne. unfold choose_job_list.
  destruct (job_urls cfg); [done|].
  destruct (resume args); [|done].
  rewrite bind_eq. simpl.
  destruct (progress_json w) as [p|]; [|done].
  by destruct (progress_truthy p && _).
Qed.

(** [prepare_run] on a configured URL list: the browser is launched only
    when the filtered list is not empty. *)
Lemma prepare_run_manual (args : Args) (cfg : Config) (env : Env) (w : World) :
  job_urls cfg ≠ [] →
  let r := choose_job_list args cfg (applied_set w) w in
  prepare_run args cfg env w =
  match r.1.2 with
  | [] => (None, r.2)
  | _ :: _ => (Some r.1.2, add_events [Launch] r.2)
  end.
Proof.
  intros Hne r. subst r. unfold prepare_run.
  rewrite bind_eq.
  change (load_applied_jobs w).1 with (applied_set w).
  change (load_applied_jobs w).2 with w.
  rewrite bind_eq.
  pose proof (choose_job_list_manual args cfg (applied_set w) w Hne) as Hm.
  destruct (choose_job_list args cfg (applied_set w) w) as [[fs l] w1].
  simpl in Hm. subst fs. simpl.
  destruct l as [|u l]; [done|].
  rewrite bool_decide_eq_false_2 by done.
  rewrite bind_eq. simpl. rewrite bind_eq. reflexivity.
Qed.

Lemma search_jobs_via_browser_eq (args : Args) (cfg : Config) (env : Env) (w : World) :
  search_jobs_via_browser env (search_query cfg) (search_board args cfg) w =
  (search_links args cfg env, add_events (search_events args cfg) w).
Proof.
  unfold search_jobs_via_browser. cbv zeta.
  rewrite !bind_eq. simpl. rewrite !add_events_add. reflexivity.
Qed.

(** [prepare_run] without configured URLs: progress is discarded, the
    browser is launched and the search runs before anything else. *)
Lemma prepare_run_search (args : Args) (cfg : Config) (env : Env) (w : World) :
  job_urls cfg = [] →
  let w1 := (clear_progress w).2 in
  prepare_run args cfg env w =
  match nonempty (not_applied (applied_set w) (search_links args cfg env)) with
  | None => (None, add_events (Launch :: search_events args cfg ++ [Close]) w1)
  | Some l => (Some l, add_events (Launch :: search_events args cfg) w1)
  end.
Proof.
  intros He w1. subst w1. unfold prepare_run.
  rewrite bind_eq.
  change (load_applied_jobs w).1 with (applied_set w).
  change (load_applied_jobs w).2 with w.
  rewrite bind_eq.
  unfold choose_job_list. rewrite He. rewrite bind_eq. simpl.
  rewrite bind_eq. simpl. rewrite bind_eq.
  fold (search_query cfg). fold (search_board args cfg).
  rewrite !bind_eq, !search_jobs_via_browser_eq. simpl.
  rewrite add_events_add.
  destruct (search_links args cfg env) as [|u l] eqn:Es.
  - rewrite bind_eq. simpl. rewrite add_events_add. reflexivity.
  - simpl. destruct (not_applied (applied_set w) (u :: l)) as [|u' l'] eqn:En.
    + simpl. rewrite bind_eq. simpl. rewrite add_events_add. reflexivity.
    + reflexivity.
Qed.

(** ** An empty worklist *)

Lemma main_returns_early (args : Args) (cfg : Config) (env : Env) (w w' : World) :
  prepare_run args cfg env w = (None, w') → main args cfg env w = (tt, w').
Proof. intros E. unfold main. rewrite bind_eq, E. reflexivity. Qed.

(** C8, as amended.  When the list the loop would iterate is empty, the run
    ends with the applied-jobs file, the log and the debug dump untouched
    and without navigating to any job page.  With a configured URL list it
    ends before any browser event.  With a worklist that comes from search,
    the browser has by then been launched and sent to the search page, and
    is closed again: the trace is exactly launch, the three search events,
    close. *)
Theorem empty_worklist_ends_run (args : Args) (cfg : Config) (env : Env) (w : World) :
  run_list args cfg env w = [] →
  let w' := (main args cfg env w).2 in
  applied_jobs_json w' = applied_jobs_json w ∧
  applications_log w' = applications_log w ∧
  debug_page_html w' = debug_page_html w ∧
  (job_urls cfg ≠ [] → trace w' = trace w) ∧
  (job_urls cfg = [] →
   trace w' = trace w ++ Launch :: search_events args cfg ++ [Close]).
Proof.
  intros Hempty w'. subst w'. unfold run_list in Hempty.
  destruct (decide (job_urls cfg = [])) as [Hs|Hm].
  - pose proof (prepare_run_search args cfg env w Hs) as E. cbv zeta in E.
    destruct (nonempty (not_applied (applied_set w) (search_links args cfg env)))
      as [l|] eqn:En.
    + rewrite E in Hempty. simpl in Hempty. subst l.
      destruct (not_applied (applied_set w) (search_links args cfg env)); done.
    + rewrite (main_returns_early _ _ _ _ _ E). simpl. done.
  - pose proof (prepare_run_manual args cfg env w Hm) as E. cbv zeta in E.
    destruct (choose_job_list_world args cfg (applied_set w) w) as [Hw|Hw].
    + destruct ((choose_job_list args cfg (applied_set w) w).1.2) as [|u l].
      * rewrite (main_returns_early _ _ _ _ _ E), Hw. simpl. done.
      * rewrite E in Hempty. done.
    + destruct ((choose_job_list args cfg (applied_set w) w).1.2) as [|u l].
      * rewrite (main_returns_early _ _ _ _ _ E), Hw. simpl. done.
      * rewrite E in Hempty. done.
Qed.

Lemma empty_worklist_ends_run_witness :
  let cfg := Sample.profile in
  let w' := (main Sample.plain_run cfg Sample.site Sample.fresh).2 in
  applied_jobs_json w' = None ∧
  applications_log w' = [] ∧
  debug_page_html w' = None ∧
  trace w' = Launch :: search_events Sample.plain_run cfg ++ [Close].
Proof.
  intros cfg w'.
  destruct (empty_worklist_ends_run Sample.plain_run cfg Sample.site Sample.fresh)
    as (H1 & H2 & H3 & _ & H5).
  - reflexivity.
  - split; [exact H1|]. split; [exact H2|]. split; [exact H3|].
    apply H5. reflexivity.
Defined.

(** C8, counterexample.  Without configured URLs and with a search that
    finds no link, the worklist is empty, yet the browser was launched and
    navigated to the search page before the run ended. *)
Lemma empty_search_result_follows_browser_actions :
  ¬ empty_worklist_precedes_browser.
Proof.
  intros H.
  specialize (H Sample.plain_run Sample.profile Sample.site Sample.fresh eq_refl).
  discriminate H.
Qed.

Example empty_search_result_trace :
  trace (main Sample.plain_run Sample.profile Sample.site Sample.fresh).2 =
  [Launch;
   Goto ("https://duckduckgo.com/?q=(site:boards.greenhouse.io+OR+site:jobs.lever.co"
         +:+ "+OR+site:jobs.ashbyhq.com)+engineer&t=h_&ia=web");
   WaitForSelector links_ready_selector;
   QuerySelectorAll "a[href]";
   Close].
Proof. reflexivity. Qed.

(** ** Resuming *)

Lemma slice_from_nonneg {A} (l : list A) (start : Z) :
  (0 ≤ start)%Z → slice_from l start = drop (Z.to_nat start) l.
Proof.
  intros H. unfold slice_from.
  destruct (start <? 0)%Z eqn:E; [lia|].
  destruct (decide (start ≤ Z.of_nat (length l))%Z).
  - by rewrite Z.min_l.
  - rewrite Z.min_r by lia. rewrite Nat2Z.id.
    rewrite !drop_ge; [done|lia|lia].
Qed.

(** A negative start counts from the end of the list. *)
Example slice_from_negative : slice_from ["a"; "b"; "c"; "d"] (-2) = ["c"; "d"].
Proof. reflexivity. Qed.

Lemma run_list_manual (args : Args) (cfg : Config) (env : Env) (w : World) :
  job_urls cfg ≠ [] →
  run_list args cfg env w = (choose_job_list args cfg (applied_set w) w).1.2.
Proof.
  intros Hm. unfold run_list.
  rewrite (prepare_run_manual args cfg env w Hm).
  by destruct ((choose_job_list args cfg (applied_set w) w).1.2).
Qed.

Lemma run_list_search (args : Args) (cfg : Config) (env : Env) (w : World) :
  job_urls cfg = [] →
  run_list args cfg env w = not_applied (applied_set w) (search_links args cfg env).
Proof.
  intros Hs. unfold run_list.
  rewrite (prepare_run_search args cfg env w Hs).
  by destruct (not_applied (applied_set w) (search_links args cfg env)).
Qed.

(** Matching progress: the run starts after the saved index. *)
Lemma run_list_resume_match (args : Args) (cfg : Config) (env : Env) (w : World)
    (p : Progress) (idx : Z) :
  resume args = true →
  job_urls cfg ≠ [] →
  progress_json w = Some p →
  saved_job_urls p = Some (job_urls cfg) →
  default (-1)%Z (saved_last_index p) = idx →
  (-1 ≤ idx)%Z →
  run_list args cfg env w = drop (Z.to_nat (idx + 1)) (job_urls cfg).
Proof.
  intros Hr Hm Hp Hu Hi Hidx. rewrite run_list_manual by done.
  unfold choose_job_list. destruct (job_urls cfg) as [|u l] eqn:E; [done|].
  rewrite Hr, bind_eq. simpl. rewrite Hp.
  unfold progress_truthy. rewrite Hu, Hi. simpl.
  rewrite bool_decide_eq_true_2 by done. simpl.
  apply slice_from_nonneg. lia.
Qed.

(** No progress, or progress for another list: the applied set filters. *)
Lemma run_list_resume_mismatch (args : Args) (cfg : Config) (env : Env) (w : World) :
  resume args = true →
  job_urls cfg ≠ [] →
  (progress_json w = None ∨
   ∃ p, progress_json w = Some p ∧ saved_job_urls p ≠ Some (job_urls cfg)) →
  run_list args cfg env w = not_applied (applied_set w) (job_urls cfg).
Proof.
  intros Hr Hm Hp. rewrite run_list_manual by done.
  unfold choose_job_list. destruct (job_urls cfg) as [|u l] eqn:E; [done|].
  rewrite Hr, bind_eq. simpl.
  destruct Hp as [->|(p & -> & Hne)]; [done|].
  rewrite bool_decide_eq_false_2 by done. by rewrite andb_false_r.
Qed.

(** C2, as amended.  In a resumed run over a configured URL list: when the
    saved list equals the configured list, the run processes exactly the
    suffix of that list starting at the saved index plus one (the saved index
    is -1 when the file has none, and is at least -1, as every index the run
    itself saves is); when no progress is saved or the saved list differs, it
    processes the configured list with every applied URL removed.  In a
    resumed run whose worklist comes from search, saved progress is not
    consulted: the run processes the search results with every applied URL
    removed. *)
Theorem resume_worklist (args : Args) (cfg : Config) (env : Env) (w : World) :
  resume args = true →
  (job_urls cfg ≠ [] →
   (∀ p idx,
      progress_json w = Some p →
      saved_job_urls p = Some (job_urls cfg) →
      default (-1)%Z (saved_last_index p) = idx →
      (-1 ≤ idx)%Z →
      run_list args cfg env w = drop (Z.to_nat (idx + 1)) (job_urls cfg)) ∧
   (progress_json w = None ∨
    (∃ p, progress_json w = Some p ∧ saved_job_urls p ≠ Some (job_urls cfg)) →
    run_list args cfg env w = not_applied (applied_set w) (job_urls cfg))) ∧
  (job_urls cfg = [] →
   run_list args cfg env w =
   not_applied (applied_set w) (search_links args cfg env)).
Proof.
  intros Hr. split; [intros Hm; split|].
  - intros p idx. by apply run_list_resume_match.
  - by apply run_list_resume_mismatch.
  - apply run_list_search.
Qed.

Lemma resume_worklist_witness :
  run_list Sample.resumed_run Sample.profile_with_urls Sample.site
    Sample.stopped_after_first = [Sample.url2; Sample.url3] ∧
  run_list Sample.resumed_run Sample.profile_with_urls Sample.site
    Sample.applied_once = [Sample.url2; Sample.url3] ∧
  run_list Sample.resumed_run Sample.profile Sample.site_with_results
    Sample.after_search_run = [Sample.url2].
Proof.
  destruct (resume_worklist Sample.resumed_run Sample.profile_with_urls Sample.site
              Sample.stopped_after_first eq_refl) as [Hm _].
  destruct (Hm ltac:(discriminate)) as [Hmatch _].
  destruct (resume_worklist Sample.resumed_run Sample.profile_with_urls Sample.site
              Sample.applied_once eq_refl) as [Hm' _].
  destruct (Hm' ltac:(discriminate)) as [_ Hfilter].
  destruct (resume_worklist Sample.resumed_run Sample.profile
              Sample.site_with_results Sample.after_search_run eq_refl)
    as [_ Hsearch].
  split; [|split].
  - exact (Hmatch _ 0%Z eq_refl eq_refl eq_refl ltac:(lia)).
  - exact (Hfilter (or_introl eq_refl)).
  - exact (Hsearch eq_refl).
Defined.

(** C2, counterexample.  The worklist comes from search and equals the
    saved list [[url2]] with saved index 0; the resumed run still processes
    [url2] instead of the empty suffix. *)
Lemma resume_ignores_progress_after_search : ¬ resume_follows_saved_progress.
Proof.
  intros H.
  specialize (H Sample.resumed_run Sample.profile Sample.site_with_results
                Sample.after_search_run
                {| saved_job_urls := Some [Sample.url2]; saved_last_index := Some 0%Z |}
                0%Z eq_refl eq_refl eq_refl eq_refl ltac:(lia)).
  discriminate H.
Qed.

(** ** Progress saved by the loop *)

Lemma process_job_progress (cfg : Config) (env : Env) (job_urls : list string)
    (i : nat) (url : string) (w : World) :
  progress_json (process_job cfg env job_urls i url w).2 =
  Some {| saved_job_urls := Some job_urls; saved_last_index := Some (Z.of_nat i) |}.
Proof. reflexivity. Qed.

Lemma per_job_loop_snoc (cfg : Config) (env : Env) (job_urls todo : list string)
    (url : string) (i : nat) (w : World) :
  per_job_loop cfg env job_urls i (todo ++ [url]) w =
  process_job cfg env job_urls (i + length todo) url
    (per_job_loop cfg env job_urls i todo w).2.
Proof.
  revert i w. induction todo as [|u todo IH]; intros i w.
  - change (per_job_loop cfg env job_urls i ([] ++ [url]) w)
      with (bind (process_job cfg env job_urls i url) (λ _, ret tt) w).
    change (per_job_loop cfg env job_urls i [] w).2 with w.
    rewrite bind_eq, Nat.add_0_r.
    by destruct (process_job cfg env job_urls i url w) as [[] ?].
  - change (per_job_loop cfg env job_urls i ((u :: todo) ++ [url]) w)
      with (per_job_loop cfg env job_urls (S i) (todo ++ [url])
              (process_job cfg env job_urls i u w).2).
    change (per_job_loop cfg env job_urls i (u :: todo) w)
      with (per_job_loop cfg env job_urls (S i) todo
              (process_job cfg env job_urls i u w).2).
    rewrite IH.
    by replace (i + length (u :: todo)) with (S i + length todo) by (simpl; lia).
Qed.

(** After the job at position [k] the progress file holds the iterated list
    and [k], whatever the outcome of that or any earlier job. *)
Lemma per_job_loop_progress (cfg : Config) (env : Env) (job_urls : list string)
    (k : nat) (w : World) :
  k < length job_urls →
  progress_json (per_job_loop cfg env job_urls 0 (take (S k) job_urls) w).2 =
  Some {| saved_job_urls := Some job_urls; saved_last_index := Some (Z.of_nat k) |}.
Proof.
  intros Hk. destruct (lookup_lt_is_Some_2 job_urls k Hk) as [url Hurl].
  rewrite (take_S_r _ _ _ Hurl), per_job_loop_snoc, process_job_progress.
  rewrite length_take. do 3 f_equal. lia.
Qed.

Lemma prepare_run_list (args : Args) (cfg : Config) (env : Env) (w : World) :
  run_list args cfg env w ≠ [] →
  (prepare_run args cfg env w).1 = Some (run_list args cfg env w).
Proof.
  unfold run_list. by destruct ((prepare_run args cfg env w).1).
Qed.

Lemma main_interrupted_eq (k : nat) (args : Args) (cfg : Config) (env : Env)
    (w : World) :
  run_list args cfg env w ≠ [] →
  main_interrupted k args cfg env w =
  per_job_loop cfg env (run_list args cfg env w) 0
    (take k (run_list args cfg env w)) (prepare_run args cfg env w).2.
Proof.
  intros Hne. unfold main_interrupted. rewrite bind_eq.
  by rewrite (prepare_run_list _ _ _ _ Hne).
Qed.

(** C9, as amended.  After the job at position [k] of the iterated list has
    been processed, successfully or not, the progress file holds that
    iterated (filtered) list and the index [k].  A run resumed from there
    skips the first [k + 1] jobs, filled or not, when the saved list equals
    the configured URL list; when the configured list is another one, the
    resumed run processes the configured list minus the applied URLs, jobs
    attempted without being filled included. *)
Theorem progress_records_iterated_list (args : Args) (cfg : Config) (env : Env)
    (w : World) (k : nat) :
  k < length (run_list args cfg env w) →
  let wl := run_list args cfg env w in
  let w' := (main_interrupted (S k) args cfg env w).2 in
  progress_json w' =
    Some {| saved_job_urls := Some wl; saved_last_index := Some (Z.of_nat k) |} ∧
  (job_urls cfg = wl → run_list (resumed args) cfg env w' = drop (S k) wl) ∧
  (job_urls cfg ≠ [] → job_urls cfg ≠ wl →
   run_list (resumed args) cfg env w' = not_applied (applied_set w') (job_urls cfg)).
Proof.
  intros Hk wl w'. subst w'.
  assert (wl ≠ []) as Hne by (intros E; subst wl; rewrite E in Hk; simpl in Hk; lia).
  rewrite main_interrupted_eq by done. fold wl.
  pose proof (per_job_loop_progress cfg env wl k (prepare_run args cfg env w).2 Hk)
    as Hp.
  split; [exact Hp|]. split.
  - intros Hcfg.
    rewrite (run_list_resume_match (resumed args) cfg env _ _ (Z.of_nat k)
               eq_refl ltac:(by rewrite Hcfg) Hp); simpl.
    + rewrite Hcfg. f_equal. lia.
    + by rewrite Hcfg.
    + done.
    + lia.
  - intros Hm Hdiff. apply run_list_resume_mismatch; [done|done|].
    right. eexists. split; [exact Hp|]. simpl. congruence.
Qed.

Lemma progress_records_iterated_list_witness :
  let w' := (main_interrupted 2 Sample.plain_run Sample.profile_with_urls
               Sample.site Sample.fresh).2 in
  progress_json w' =
    Some {| saved_job_urls := Some [Sample.url1; Sample.url2; Sample.url3];
            saved_last_index := Some 1%Z |} ∧
  run_list (resumed Sample.plain_run) Sample.profile_with_urls Sample.site w'
    = [Sample.url3].
Proof.
  intros w'.
  destruct (progress_records_iterated_list Sample.plain_run
              Sample.profile_with_urls Sample.site Sample.fresh 1) as (H1 & H2 & _).
  - vm_compute. lia.
  - split; [exact H1|]. exact (H2 eq_refl).
Defined.

(** C9, counterexample.  [url1] is already applied, so the run iterates
    [[url2; url3]]; [url2] has no form and is attempted without being filled,
    then the run is interrupted.  The saved list differs from the configured
    one, so the resumed run filters by the applied set and takes [url2] up
    again. *)
Lemma resume_can_repeat_unfilled_job : ¬ resume_skips_attempted_jobs.
Proof.
  intros H.
  specialize (H Sample.plain_run Sample.profile_with_urls Sample.site
                Sample.applied_once 0 0 Sample.url2 (le_n 0) eq_refl).
  cbv zeta in H.
  assert (applied_set (main_interrupted 1 Sample.plain_run Sample.profile_with_urls
                         Sample.site Sample.applied_once).2
          = list_to_set [Sample.url1]) as Ea by reflexivity.
  assert (run_list (resumed Sample.plain_run) Sample.profile_with_urls Sample.site
            (main_interrupted 1 Sample.plain_run Sample.profile_with_urls
               Sample.site Sample.applied_once).2
          = [Sample.url2; Sample.url3]) as El by reflexivity.
  rewrite Ea, El in H. apply H.
  - rewrite elem_of_list_to_set, list_elem_of_singleton. discriminate.
  - apply elem_of_cons. by left.
Qed.

Example interrupted_run_state :
  let w' := (main_interrupted 1 Sample.plain_run Sample.profile_with_urls
               Sample.site Sample.applied_once).2 in
  progress_json w' =
    Some {| saved_job_urls := Some [Sample.url2; Sample.url3];
            saved_last_index := Some 0%Z |} ∧
  applied_jobs_json w' = Some [Sample.url1] ∧
  applications_log w' = [] ∧
  Goto Sample.url2 ∈ trace w'.
Proof.
  repeat split. apply list_elem_of_In. vm_compute. tauto.
Qed.

(** ** URLs of no known board *)

(** C10.  When detection finds no board for a URL, the loop still processes
    it: the board id passed to [apply_to_job] is the configured one, or
    [greenhouse] when none is configured.  The job is skipped, with failure
    and without navigation or any other effect, only when that id is not
    registered; when it is registered the job page is navigated to. *)
Theorem undetected_url_uses_configured_board (cfg : Config) (env : Env)
    (job_urls : list string) (i : nat) (url : string) (w : World) :
  detect_board_from_url url = None →
  let bid := default "greenhouse" (board cfg) in
  let attempt := apply_to_job env url cfg bid (i + 1) (length job_urls) in
  process_job cfg env job_urls i url w = save_progress job_urls i (attempt w).2 ∧
  (get_board bid = None → attempt w = (false, w)) ∧
  (∀ b, get_board bid = Some b →
     ∃ es, trace (attempt w).2 = trace w ++ Goto url :: es).
Proof.
  intros Hd bid attempt. subst bid attempt. repeat split.
  - unfold process_job, board_for. rewrite Hd. reflexivity.
  - apply apply_to_job_unknown_board.
  - intros b Hb. by eapply apply_to_job_navigates.
Qed.

Lemma undetected_url_uses_configured_board_witness :
  let url := "https://careers.example.com/openings/17" in
  let attempt := apply_to_job Sample.site url Sample.profile "greenhouse" (0 + 1) 1 in
  process_job Sample.profile Sample.site [url] 0 url Sample.fresh =
    save_progress [url] 0 (attempt Sample.fresh).2 ∧
  ∃ es, trace (attempt Sample.fresh).2 = trace Sample.fresh ++ Goto url :: es.
Proof.
  intros url attempt.
  destruct (undetected_url_uses_configured_board Sample.profile Sample.site
              [url] 0 url Sample.fresh eq_refl) as (H1 & _ & H3).
  split; [exact H1|]. exact (H3 greenhouse eq_refl).
Defined.

(** * Further properties *)

(** ** Detection and the registry *)


(** X1. An id returned by detection is always a key of the registry, its
    board carries that id, and the URL matches that board. *)
Theorem detected_board_is_registered (url bid : string) :
  detect_board_from_url url = Some bid →
  ∃ b, get_board bid = Some b ∧ ident b = bid ∧ board_matches url b.
Proof.
  unfold detect_board_from_url, board_matches. simpl.
  destruct (all_patterns_in (PyStr.lower url) greenhouse) eqn:Eg.
  { intros [= <-]. exists greenhouse. repeat split.
    by apply all_patterns_in_spec. }
  destruct (all_patterns_in (PyStr.lower url) lever) eqn:El.
  { intros [= <-]. exists lever. repeat split.
    by apply all_patterns_in_spec. }
  destruct (all_patterns_in (PyStr.lower url) ashby) eqn:Ea; [|done].
  intros [= <-]. exists ashby. repeat split.
  by apply all_patterns_in_spec.
Qed.

Lemma detected_board_is_registered_witness :
  ∃ b, get_board "ashby" = Some b ∧ ident b = "ashby" ∧
       board_matches "https://jobs.ashbyhq.com/acme/7" b.
Proof.
  apply (detected_board_is_registered "https://jobs.ashbyhq.com/acme/7" "ashby").
  reflexivity.
Defined.

Lemma lower_char_idempotent (c : ascii) :
  PyStr.lower_char (PyStr.lower_char c) = PyStr.lower_char c.
Proof. destruct c as [[] [] [] [] [] [] [] []]; reflexivity. Qed.

Lemma lower_idempotent (s : string) : PyStr.lower (PyStr.lower s) = PyStr.lower s.
Proof.
  induction s as [|c s IH]; [done|]. simpl. by rewrite lower_char_idempotent, IH.
Qed.

Lemma lower_app (a b : string) :
  PyStr.lower (a +:+ b) = PyStr.lower a +:+ PyStr.lower b.
Proof.
  induction a as [|c a IH]; [done|].
  rewrite app_cons. simpl. by rewrite IH.
Qed.

(** X2. Detection does not depend on letter case: a URL and its lowercased
    form are detected alike. *)
Theorem detect_board_ignores_case (url : string) :
  detect_board_from_url (PyStr.lower url) = detect_board_from_url url.
Proof. unfold detect_board_from_url. by rewrite lower_idempotent. Qed.

(** ** Search *)

Lemma link_matches_spec (board_id href : string) (items : list (string * Board)) :
  link_matches board_id href items = true ↔
  ∃ bid b, (bid, b) ∈ items ∧
           (board_id = "all" ∨ bid = board_id) ∧
           all_patterns_in href b = true.
Proof.
  induction items as [|[k b] items IH]; simpl.
  - split; [done|]. intros (bid & b & Hin & _). by apply not_elem_of_nil in Hin.
  - assert (negb (bool_decide (board_id = "all")) && negb (bool_decide (k = board_id))
            = true ↔ ¬ (board_id = "all" ∨ k = board_id)) as Hskip.
    { rewrite andb_true_iff, !negb_true_iff, !bool_decide_eq_false. tauto. }
    destruct (negb (bool_decide (board_id = "all")) && negb (bool_decide (k = board_id)))
      eqn:Es.
    + assert (¬ (board_id = "all" ∨ k = board_id)) as Hno by (by apply Hskip).
      rewrite IH. split.
      * intros (bid & b' & Hin & Hreq & Hm). exists bid, b'.
        split; [apply elem_of_cons; by right|done].
      * intros (bid & b' & Hin & Hreq & Hm).
        apply elem_of_cons in Hin as [[= -> ->]|Hin]; [done|].
        by exists bid, b'.
    + assert (board_id = "all" ∨ k = board_id) as Hyes.
      { destruct (decide (board_id = "all" ∨ k = board_id)) as [|Hn]; [done|].
        apply Hskip in Hn. congruence. }
      destruct (all_patterns_in href b) eqn:Eb.
      * split; [intros _|done]. exists k, b.
        split; [apply elem_of_cons; by left|done].
      * rewrite IH. split.
        -- intros (bid & b' & Hin & Hreq & Hm). exists bid, b'.
           split; [apply elem_of_cons; by right|done].
        -- intros (bid & b' & Hin & Hreq & Hm).
           apply elem_of_cons in Hin as [[= -> ->]|Hin]; [congruence|].
           by exists bid, b'.
Qed.

(** One step of the link loop that leaves [results] alone. *)
Lemma collect_links_skip_spec (P : string → Prop) (href : option string)
    (found : list (option string)) (results : list string) (x : string) :
  (∀ h, href = Some h → ¬ (h ≠ EmptyString ∧ P h) ∨ h ∈ results) →
  (x ∈ results ∨ (Some x ∈ found ∧ x ≠ EmptyString ∧ P x)) ↔
  (x ∈ results ∨ (Some x ∈ href :: found ∧ x ≠ EmptyString ∧ P x)).
Proof.
  intros Hskip. split.
  - intros [?|(Hin & Hne & HP)]; [by left|].
    right. split; [apply elem_of_cons; by right|done].
  - intros [?|(Hin & Hne & HP)]; [by left|].
    apply elem_of_cons in Hin as [<-|Hin]; [|by right].
    destruct (Hskip x eq_refl) as [Hn|?]; [|by left].
    destruct Hn. done.
Qed.

Lemma collect_links_cons (board_id : string) (href : option string)
    (rest : list (option string)) (results : list string) :
  collect_links board_id (href :: rest) results =
  match href with
  | None => collect_links board_id rest results
  | Some href =>
      if negb (PyStr.truthy href) then collect_links board_id rest results
      else if link_matches board_id href BOARDS
           then if bool_decide (href ∈ results)
                then collect_links board_id rest results
                else collect_links board_id rest (results ++ [href])
           else collect_links board_id rest results
  end.
Proof. reflexivity. Qed.

(** What the link loop collects: what was there, plus every non-empty link
    of a requested board. *)
Lemma collect_links_spec (board_id : string) (found : list (option string))
    (results : list string) (x : string) :
  x ∈ collect_links board_id found results ↔
  x ∈ results ∨ (Some x ∈ found ∧ x ≠ EmptyString ∧ requested_link board_id x).
Proof.
  revert results.
  induction found as [|href found IH]; intros results.
  - simpl. split; [intros ?; by left|]. intros [?|(Hin & _)]; [done|].
    by apply not_elem_of_nil in Hin.
  - rewrite collect_links_cons. destruct href as [href|].
    2:{ rewrite IH. apply collect_links_skip_spec. intros h [=]. }
    destruct (PyStr.truthy href) eqn:Et; cbn [negb].
    2:{ rewrite IH. apply collect_links_skip_spec. intros h [= <-].
        left. intros [Hne _]. by destruct href. }
    destruct (link_matches board_id href BOARDS) eqn:Em.
    2:{ rewrite IH. apply collect_links_skip_spec. intros h [= <-].
        left. intros [_ Hreq]. apply link_matches_spec in Hreq. congruence. }
    apply link_matches_spec in Em.
    destruct (decide (href ∈ results)) as [Hr|Hr].
    + rewrite bool_decide_eq_true_2 by done. rewrite IH.
      apply collect_links_skip_spec. intros h [= <-]. by right.
    + rewrite bool_decide_eq_false_2 by done.
      rewrite IH, elem_of_app, list_elem_of_singleton. split.
      * intros [[?| ->]|(Hin & Hne & Hreq)]; [by left| |].
        -- right. split; [apply elem_of_cons; by left|].
           split; [by destruct href|done].
        -- right. split; [apply elem_of_cons; by right|done].
      * intros [?|(Hin & Hne & Hreq)]; [by left; left|].
        apply elem_of_cons in Hin as [[= ->]|Hin]; [by left; right|]. by right.
Qed.

Lemma collect_links_NoDup (board_id : string) (found : list (option string))
    (results : list string) :
  NoDup results → NoDup (collect_links board_id found results).
Proof.
  revert results. induction found as [|href found IH]; intros results Hnd; [done|].
  rewrite collect_links_cons. destruct href as [href|]; [|by apply IH].
  destruct (negb (PyStr.truthy href)); [by apply IH|].
  destruct (link_matches board_id href BOARDS); [|by apply IH].
  destruct (decide (href ∈ results)) as [Hr|Hr].
  - rewrite bool_decide_eq_true_2 by done. by apply IH.
  - rewrite bool_decide_eq_false_2 by done. apply IH.
    apply NoDup_app. split; [done|]. split; [|apply NoDup_singleton].
    intros y Hy ->%list_elem_of_singleton. done.
Qed.

Lemma search_result_eq (env : Env) (query board_id : string) (w : World) :
  (search_jobs_via_browser env query board_id w).1 =
  take 20 (collect_links board_id (links (web env (search_url query board_id))) []).
Proof. reflexivity. Qed.

(** X3. The search returns at most 20 URLs and never the same URL twice. *)
Theorem search_results_bounded (env : Env) (query board_id : string) (w : World) :
  let found := (search_jobs_via_browser env query board_id w).1 in
  length found ≤ 20 ∧ NoDup found.
Proof.
  intros found. subst found. rewrite search_result_eq. split.
  - rewrite length_take. lia.
  - eapply sublist_NoDup; [|apply sublist_take].
    apply collect_links_NoDup, NoDup_nil_2.
Qed.

Lemma search_result_member (env : Env) (query board_id : string) (w : World)
    (url : string) :
  url ∈ (search_jobs_via_browser env query board_id w).1 →
  Some url ∈ links (web env (search_url query board_id)) ∧
  url ≠ EmptyString ∧
  requested_link board_id url.
Proof.
  rewrite search_result_eq. intros Hin.
  apply subseteq_take, collect_links_spec in Hin as [Hin|Hin]; [|done].
  by apply not_elem_of_nil in Hin.
Qed.

(** X4. Every URL the search returns is a non-empty link of the result page
    that contains all URL patterns of a requested board (any board when the
    search is for "all", the named board otherwise). *)
Theorem search_results_sound (env : Env) (query board_id : string) (w : World)
    (url : string) :
  url ∈ (search_jobs_via_browser env query board_id w).1 →
  Some url ∈ links (web env (search_url query board_id)) ∧
  url ≠ EmptyString ∧
  requested_link board_id url.
Proof.
  rewrite search_result_eq. intros Hin.
  apply subseteq_take, collect_links_spec in Hin as [Hin|Hin]; [|done].
  by apply not_elem_of_nil in Hin.
Qed.

(** X5. No requested link is lost except by the cut at 20: a non-empty link
    of the result page that belongs to a requested board is returned, unless
    the search already returns 20 URLs. *)
Theorem search_results_complete (env : Env) (query board_id : string) (w : World)
    (url : string) :
  Some url ∈ links (web env (search_url query board_id)) →
  url ≠ EmptyString →
  requested_link board_id url →
  let found := (search_jobs_via_browser env query board_id w).1 in
  url ∈ found ∨ length found = 20.
Proof.
  intros Hin Hne Hreq found. subst found. rewrite search_result_eq.
  set (all := collect_links board_id (links (web env (search_url query board_id))) []).
  assert (url ∈ all) as Hall by (apply collect_links_spec; by right).
  destruct (decide (length all ≤ 20)) as [Hle|Hgt].
  - left. by rewrite take_ge.
  - right. rewrite length_take. lia.
Qed.

Lemma search_results_sound_witness :
  Some Sample.url2 ∈
    links (web Sample.site_with_results (search_url "engineer" "all")) ∧
  Sample.url2 ≠ EmptyString ∧
  requested_link "all" Sample.url2.
Proof.
  apply (search_results_sound Sample.site_with_results "engineer" "all"
           Sample.fresh Sample.url2).
  apply list_elem_of_In. vm_compute. tauto.
Defined.

Lemma search_results_complete_witness :
  let found :=
    (search_jobs_via_browser Sample.site_with_results "engineer" "all"
       Sample.fresh).1 in
  Sample.url2 ∈ found ∨ length found = 20.
Proof.
  apply (search_results_complete Sample.site_with_results "engineer" "all"
           Sample.fresh Sample.url2).
  - apply list_elem_of_In. vm_compute. tauto.
  - discriminate.
  - exists "lever", lever. split; [|split].
    + apply list_elem_of_In. vm_compute. tauto.
    + by left.
    + reflexivity.
Defined.

(** The URL patterns of the registry are written in lower case. *)
Lemma registry_patterns_lowercase :
  Forall (λ kb : string * Board,
            Forall (λ p, PyStr.lower p = p) (url_patterns kb.2)) BOARDS.
Proof. repeat constructor. Qed.

Lemma contains_lower (p s : string) :
  PyStr.contains p s = true →
  PyStr.contains (PyStr.lower p) (PyStr.lower s) = true.
Proof.
  rewrite !PyStrFacts.contains_spec. intros (a & b & ->).
  exists (PyStr.lower a), (PyStr.lower b). by rewrite !lower_app.
Qed.

Lemma first_matching_board_some (text : string) (items : list (string * Board))
    (bid : string) (b : Board) :
  (bid, b) ∈ items →
  all_patterns_in text b = true →
  is_Some (first_matching_board text items).
Proof.
  intros Hin Hm.
  pose proof (first_matching_board_spec text items) as H.
  destruct (first_matching_board text items) as [k|]; [by eexists|].
  rewrite Forall_forall in H. specialize (H (bid, b) Hin). simpl in H. congruence.
Qed.


(** X6. Every URL the search returns is recognised by board detection, so
    the per-job loop never needs the configured fallback board for a search
    result. *)
Theorem search_results_are_detected (env : Env) (query board_id : string)
    (w : World) (url : string) :
  url ∈ (search_jobs_via_browser env query board_id w).1 →
  is_Some (detect_board_from_url url).
Proof.
  intros Hin. apply search_result_member in Hin as (_ & _ & bid & b & Hb & _ & Hm).
  unfold detect_board_from_url.
  apply (first_matching_board_some _ _ bid b Hb).
  unfold all_patterns_in in *. rewrite forallb_forall in *. intros p Hp.
  pose proof registry_patterns_lowercase as Hlow.
  rewrite Forall_forall in Hlow. specialize (Hlow _ Hb). simpl in Hlow.
  rewrite Forall_forall in Hlow.
  rewrite <- (Hlow p) by (by apply list_elem_of_In).
  apply contains_lower. by apply Hm.
Qed.

Lemma search_results_are_detected_witness :
  is_Some (detect_board_from_url Sample.url2).
Proof.
  apply (search_results_are_detected Sample.site_with_results "engineer" "all"
           Sample.fresh Sample.url2).
  apply list_elem_of_In. vm_compute. tauto.
Defined.

Lemma dict_get_elem_of {V} (items : list (string * V)) (k : string) (v : V) :
  (k, v) ∈ items → is_Some (dict_get items k).
Proof.
  induction items as [|[k' v'] items IH]; intros Hin.
  - by apply not_elem_of_nil in Hin.
  - simpl. destruct (decide (k' = k)); [by eexists|].
    apply elem_of_cons in Hin as [[= -> ->]|Hin]; [done|]. by apply IH.
Qed.

(** X7. A search for a board id that is neither "all" nor registered sends
    the query to the Greenhouse site, the default of [get_search_site], and
    returns no URL at all, whatever the result page holds. *)
Theorem search_for_unknown_board_is_empty (env : Env) (query board_id : string)
    (w : World) :
  board_id ≠ "all" →
  get_board board_id = None →
  (search_jobs_via_browser env query board_id w).1 = [] ∧
  search_url query board_id =
    "https://duckduckgo.com/?q=" +:+
    PyStr.replace " " "+" ("site:boards.greenhouse.io" +:+ " " +:+ query) +:+
    "&t=h_&ia=web".
Proof.
  intros Hall Hnone. split.
  - destruct ((search_jobs_via_browser env query board_id w).1) as [|x l] eqn:E;
      [done|].
    assert (x ∈ (search_jobs_via_browser env query board_id w).1) as Hin
      by (rewrite E; apply elem_of_cons; by left).
    apply search_result_member in Hin as (_ & _ & bid & b & Hb & [?| ->] & _);
      [done|].
    apply dict_get_elem_of in Hb. unfold get_board in Hnone.
    rewrite Hnone in Hb. by destruct Hb.
  - unfold search_url, get_search_site. unfold get_board in Hnone.
    by rewrite bool_decide_eq_false_2, Hnone.
Qed.

Lemma search_for_unknown_board_is_empty_witness :
  (search_jobs_via_browser Sample.site_with_results "engineer" "workday"
     Sample.fresh).1 = [] ∧
  search_url "engineer" "workday" =
    "https://duckduckgo.com/?q=site:boards.greenhouse.io+engineer&t=h_&ia=web".
Proof.
  apply (search_for_unknown_board_is_empty Sample.site_with_results "engineer"
           "workday" Sample.fresh).
  - discriminate.
  - reflexivity.
Defined.

(** ** Events of a computation *)

Lemma emits_ret (P : Event → Prop) {A} (a : A) : emits P (ret a).
Proof. intros w. exists []. simpl. by rewrite add_events_nil. Qed.

Lemma emits_emit (P : Event → Prop) (e : Event) : P e → emits P (emit e).
Proof. intros He w. exists [e]. split; [done|]. by constructor. Qed.

Lemma emits_bind (P : Event → Prop) {A B} (m : Run A) (k : A → Run B) :
  emits P m → (∀ a, emits P (k a)) → emits P (bind m k).
Proof.
  intros Hm Hk w. rewrite bind_eq.
  destruct (Hm w) as (es1 & E1 & H1).
  destruct (Hk (m w).1 (m w).2) as (es2 & E2 & H2).
  exists (es1 ++ es2). split; [by rewrite E2, E1, add_events_add|].
  by apply Forall_app.
Qed.

Lemma emits_weaken (P Q : Event → Prop) {A} (m : Run A) :
  (∀ e, P e → Q e) → emits P m → emits Q m.
Proof.
  intros HPQ Hm w. destruct (Hm w) as (es & E & H).
  exists es. split; [done|]. eapply Forall_impl; [exact H|done].
Qed.

Lemma emits_only_browses (P : Event → Prop) {A} (m : Run A) :
  emits P m → only_browses m.
Proof. intros Hm w. destruct (Hm w) as (es & E & _). by exists es. Qed.

(** ** Job context *)









(** ** Form location *)

Lemma find_form_in_frames_sound (form_sel : string) (fs : list Root) (w : World)
    (form : Element) (root : Root) :
  (find_form_in_frames form_sel fs w).1 = Some (form, root) →
  root ∈ fs ∧ wait_for_selector root form_sel = Returned (Some form).
Proof.
  revert w. induction fs as [|frame rest IH]; intros w; [done|].
  simpl. rewrite bind_eq. simpl.
  destruct (wait_for_selector frame form_sel) as [[f|]|] eqn:E.
  - intros [= <- <-]. split; [apply elem_of_cons; by left|done].
  - intros H. apply IH in H as [Hin Hw]. split; [apply elem_of_cons; by right|done].
  - intros H. apply IH in H as [Hin Hw]. split; [apply elem_of_cons; by right|done].
Qed.

(** X9. A form that [find_form] returns is the one its search root answers
    for the board's form selector.  The root is the main document, or else a
    frame of the page, and a frame only when the board is flagged as
    iframe-hosted and the main document gave no form. *)
Theorem find_form_sound (page : Page) (b : Board) (w : World)
    (form : Element) (root : Root) :
  (find_form page b w).1 = Some (form, root) →
  wait_for_selector root (form_selector b) = Returned (Some form) ∧
  (root = document page ∨
   (form_in_iframe b = true ∧ root ∈ frames page ∧
    ∀ f, wait_for_selector (document page) (form_selector b) ≠ Returned (Some f))).
Proof.
  unfold find_form. cbv zeta. rewrite bind_eq. simpl.
  destruct (wait_for_selector (document page) (form_selector b)) as [[f|]|] eqn:E.
  - intros [= <- <-]. split; [done|by left].
  - destruct (form_in_iframe b); [|done].
    intros H. apply find_form_in_frames_sound in H as [Hin Hw].
    split; [done|]. right. by repeat split.
  - destruct (form_in_iframe b); [|done].
    intros H. apply find_form_in_frames_sound in H as [Hin Hw].
    split; [done|]. right. by repeat split.
Qed.

Lemma find_form_sound_witness :
  wait_for_selector Sample.lever_form (form_selector lever)
    = Returned (Some (Sample.input 9 false)) ∧
  (Sample.lever_form = document Sample.page_with_form ∨
   (form_in_iframe lever = true ∧ Sample.lever_form ∈ frames Sample.page_with_form ∧
    ∀ f, wait_for_selector (document Sample.page_with_form) (form_selector lever)
         ≠ Returned (Some f))).
Proof.
  apply (find_form_sound Sample.page_with_form lever Sample.fresh).
  reflexivity.
Defined.

(** ** Field filling in general *)

Lemma try_selectors_outcome (root : Root) (value : string) (sels : list string)
    (w : World) :
  let r := try_selectors root value sels w in
  (r.1 = false ∧ r.2 = add_events (map QuerySelector sels) w) ∨
  (r.1 = true ∧
   ∃ probes sel later el,
     sels = probes ++ sel :: later ∧
     query_selector root sel = Returned (Some el) ∧
     fill_ok el = true ∧
     r.2 = add_events (map QuerySelector (probes ++ [sel]) ++ [Fill (el_id el) value]) w).
Proof.
  revert w. induction sels as [|s rest IH]; intros w.
  - left. split; [done|]. simpl. by rewrite add_events_nil.
  - assert (try_selectors root value (s :: rest) w =
            match query_selector root s with
            | Returned (Some el) =>
                if fill_ok el
                then (true, add_events [QuerySelector s; Fill (el_id el) value] w)
                else try_selectors root value rest (add_events [QuerySelector s] w)
            | _ => try_selectors root value rest (add_events [QuerySelector s] w)
            end) as Estep.
    { simpl. rewrite bind_eq. simpl.
      destruct (query_selector root s) as [[el|]|]; try done.
      destruct (fill_ok el); [|done]. rewrite bind_eq. simpl.
      by rewrite add_events_add. }
    cbv zeta. rewrite Estep.
    assert (∀ w',
      w' = add_events [QuerySelector s] w →
      (try_selectors root value rest w').1 = false ∧
      (try_selectors root value rest w').2 = add_events (map QuerySelector (s :: rest)) w ∨
      (try_selectors root value rest w').1 = true ∧
      ∃ probes sel later el,
        s :: rest = probes ++ sel :: later ∧
        query_selector root sel = Returned (Some el) ∧
        fill_ok el = true ∧
        (try_selectors root value rest w').2 =
          add_events (map QuerySelector (probes ++ [sel]) ++ [Fill (el_id el) value]) w)
      as Hrest.
    { intros w' ->. destruct (IH (add_events [QuerySelector s] w))
        as [[Hf Hw]|(Ht & probes & sel & later & el & -> & Hq & Hok & Hw)].
      - left. split; [done|]. by rewrite Hw, add_events_add.
      - right. split; [done|]. exists (s :: probes), sel, later, el.
        repeat split; try done. by rewrite Hw, add_events_add. }
    destruct (query_selector root s) as [[el|]|] eqn:Eq; try by apply Hrest.
    destruct (fill_ok el) eqn:Eok; [|by apply Hrest].
    right. split; [done|]. exists [], s, rest, el. by repeat split.
Qed.

(** X10. One call of [fill_field] fills at most one element.  It returns
    True exactly when it has filled the element found by some selector of the
    field, with the given value, right after probing the selectors up to that
    one; it returns False having filled nothing, after probing every selector
    (or none, when the value is empty). *)
Theorem fill_field_outcome (root : Root) (key value : string) (b : Board)
    (cfg : Config) (w : World) :
  let sels := default [] (fields b !! key) in
  let r := fill_field root key value b cfg w in
  (r.1 = false ∧
   r.2 = add_events (map QuerySelector (if PyStr.truthy value then sels else [])) w) ∨
  (r.1 = true ∧ value ≠ EmptyString ∧
   ∃ probes sel later el,
     sels = probes ++ sel :: later ∧
     query_selector root sel = Returned (Some el) ∧
     fill_ok el = true ∧
     r.2 = add_events (map QuerySelector (probes ++ [sel]) ++ [Fill (el_id el) value]) w).
Proof.
  intros sels r. subst sels r. unfold fill_field.
  destruct (PyStr.truthy value) eqn:Ev; simpl.
  2:{ left. split; [done|]. by rewrite add_events_nil. }
  destruct (default [] (fields b !! key)) as [|s rest] eqn:Es.
  { left. split; [done|]. simpl. by rewrite add_events_nil. }
  destruct (try_selectors_outcome root value (s :: rest) w) as [H|[Ht H]].
  - by left.
  - right. split; [done|]. split; [by destruct value|done].
Qed.

Lemma try_selectors_emits (root : Root) (value : string) (sels : list string) :
  emits (probe_or_fill value) (try_selectors root value sels).
Proof.
  induction sels as [|s rest IH]; simpl; [apply emits_ret|].
  apply emits_bind; [by apply emits_emit|intros _].
  destruct (query_selector root s) as [[el|]|]; try done.
  destruct (fill_ok el); [|done].
  apply emits_bind; [by apply emits_emit|intros _; apply emits_ret].
Qed.

Lemma fill_field_emits (root : Root) (key value : string) (b : Board) (cfg : Config) :
  emits (probe_or_fill value) (fill_field root key value b cfg).
Proof.
  unfold fill_field. destruct (negb (PyStr.truthy value)); [apply emits_ret|].
  cbv zeta. pose proof (try_selectors_emits root value (default [] (fields b !! key))).
  destruct (default [] (fields b !! key)); [apply emits_ret|done].
Qed.

(** ** Form filling *)

Lemma upload_resume_emits (root : Root) (path : string) (sels : list string) :
  emits form_event (upload_resume root path sels).
Proof.
  induction sels as [|s rest IH]; simpl; [apply emits_ret|].
  destruct (set_input_files_ok root s); [by apply emits_emit|done].
Qed.

Lemma fill_form_with_board_emits (env : Env) (root : Root) (b : Board)
    (cfg : Config) (job_title company : string) :
  emits form_event (fill_form_with_board env root b cfg job_title company).
Proof.
  assert (∀ k v, emits form_event (fill_field root k v b cfg)) as Hf.
  { intros k v. eapply emits_weaken; [|apply fill_field_emits].
    intros [] He; done. }
  pose proof (upload_resume_emits root) as Hu.
  unfold fill_form_with_board. cbv zeta.
  repeat first
    [ apply Hf | apply Hu
    | apply emits_ret
    | apply emits_emit; exact I
    | apply emits_bind; [|intros ?]
    | match goal with
      | |- emits _ (match ?x with _ => _ end) => destruct x
      end ].
Qed.

(** X11. Filling a form only probes, fills and uploads: it never navigates,
    launches or closes the browser, never waits for the operator, and leaves
    the applied-jobs file, the progress file, the log and the debug dump as
    they were. *)
Theorem fill_form_with_board_stays_on_form (env : Env) (root : Root) (b : Board)
    (cfg : Config) (job_title company : string) :
  emits form_event (fill_form_with_board env root b cfg job_title company).
Proof.
  assert (∀ k v, emits form_event (fill_field root k v b cfg)) as Hf.
  { intros k v. eapply emits_weaken; [|apply fill_field_emits].
    intros [] He; done. }
  pose proof (upload_resume_emits root) as Hu.
  unfold fill_form_with_board. cbv zeta.
  repeat first
    [ apply Hf | apply Hu
    | apply emits_ret
    | apply emits_emit; exact I
    | apply emits_bind; [|intros ?]
    | match goal with
      | |- emits _ (match ?x with _ => _ end) => destruct x
      end ].
Qed.

(** X12. No file is uploaded unless the configured resume path is non-empty
    and exists on disk. *)
Theorem fill_form_uploads_only_existing_resume (env : Env) (root : Root)
    (b : Board) (cfg : Config) (job_title company : string) :
  resume_path cfg = EmptyString ∨ path_exists env (resume_path cfg) = false →
  emits not_upload (fill_form_with_board env root b cfg job_title company).
Proof.
  intros Hno.
  assert (∀ k v, emits not_upload (fill_field root k v b cfg)) as Hf.
  { intros k v. eapply emits_weaken; [|apply fill_field_emits].
    intros [] He; done. }
  assert (PyStr.truthy (resume_path cfg) && path_exists env (resume_path cfg) = false)
    as Hskip.
  { destruct Hno as [-> | ->]; [done|apply andb_false_r]. }
  unfold fill_form_with_board. cbv zeta. rewrite Hskip.
  repeat first
    [ apply Hf
    | apply emits_ret
    | apply emits_emit; exact I
    | apply emits_bind; [|intros ?]
    | match goal with
      | |- emits _ (match ?x with _ => _ end) => destruct x
      end ].
Qed.

Lemma fill_form_uploads_only_existing_resume_witness :
  emits not_upload
    (fill_form_with_board Sample.site Sample.lever_form lever Sample.profile
       "SRE" "Acme").
Proof.
  apply (fill_form_uploads_only_existing_resume Sample.site Sample.lever_form lever
           Sample.profile "SRE" "Acme").
  left. reflexivity.
Defined.

(** X13. With a profile that has no text and no resume, filling a form does
    nothing at all: not a single probe is issued. *)
Theorem fill_form_with_blank_profile (env : Env) (root : Root) (b : Board)
    (cfg : Config) (job_title company : string) (w : World) :
  blank_profile cfg →
  fill_form_with_board env root b cfg job_title company w = (tt, w).
Proof.
  intros (H1 & H2 & H3 & H4 & H5 & H6 & H7 & H8).
  unfold fill_form_with_board. rewrite H1, H2, H3, H4, H5, H6, H7, H8.
  reflexivity.
Qed.

Lemma fill_form_with_blank_profile_witness :
  let cfg := {| job_urls := []; job_search_query := None; board := None;
                first_name := EmptyString; last_name := EmptyString;
                email := EmptyString; phone := EmptyString;
                linkedin_url := EmptyString; resume_path := EmptyString;
                cover_letter := EmptyString;
                cover_letter_template := EmptyString |} in
  fill_form_with_board Sample.site Sample.lever_form lever cfg "SRE" "Acme"
    Sample.fresh = (tt, Sample.fresh).
Proof.
  intros cfg.
  apply (fill_form_with_blank_profile Sample.site Sample.lever_form lever cfg
           "SRE" "Acme" Sample.fresh).
  repeat split.
Defined.

(** X14. A template without an opening brace is returned unchanged,
    whatever the title and the company are. *)
Theorem fill_cover_letter_template_without_tokens
    (template job_title company : string) :
  brace_free template →
  fill_cover_letter_template template job_title company = template.
Proof.
  intros Ht. unfold fill_cover_letter_template.
  assert (∀ tail new, PyStr.replace (String "{" tail) new template = template) as H.
  { intros tail new. unfold PyStr.replace.
    pose proof (replace_from_brace_free tail new template EmptyString) as E.
    assert (∀ s, s +:+ EmptyString = s) as Hnil.
    { intros s. induction s as [|c s IH]; [done|]. by rewrite app_cons, IH. }
    rewrite Hnil in E. rewrite (E Ht). exact (Hnil template). }
  by rewrite !H.
Qed.

Lemma fill_cover_letter_template_without_tokens_witness :
  fill_cover_letter_template "I would like to apply." "SRE" "{company}"
  = "I would like to apply.".
Proof.
  apply (fill_cover_letter_template_without_tokens "I would like to apply."
           "SRE" "{company}").
  reflexivity.
Defined.

(** ** One job *)

Lemma find_title_emits (page : Root) (sels : list string) :
  emits probe_event (find_title page sels).
Proof.
  induction sels as [|sel rest IH]; simpl; [apply emits_ret|].
  apply emits_bind; [by apply emits_emit|intros _].
  destruct (query_selector page sel) as [[el|]|]; try done.
  destruct (inner_text el); [|done].
  destruct (_ && _); [apply emits_ret|done].
Qed.

Lemma find_company_emits (page : Root) (sels : list string) :
  emits probe_event (find_company page sels).
Proof.
  induction sels as [|sel rest IH]; simpl; [apply emits_ret|].
  apply emits_bind; [by apply emits_emit|intros _].
  destruct (query_selector page sel) as [[el|]|]; try done.
  destruct (text_or_alt el); [|done].
  destruct (_ && _); [apply emits_ret|done].
Qed.

Lemma get_job_context_emits (page : Page) (b : Board) :
  emits probe_event (get_job_context page b).
Proof.
  unfold get_job_context.
  apply emits_bind; [apply find_title_emits|intros t].
  apply emits_bind; [apply find_company_emits|intros c].
  apply emits_ret.
Qed.

Lemma find_form_in_frames_emits (form_sel : string) (fs : list Root) :
  emits probe_event (find_form_in_frames form_sel fs).
Proof.
  induction fs as [|frame rest IH]; simpl; [apply emits_ret|].
  apply emits_bind; [by apply emits_emit|intros _].
  destruct (wait_for_selector frame form_sel) as [[f|]|]; try done.
  apply emits_ret.
Qed.

Lemma find_form_emits (page : Page) (b : Board) : emits probe_event (find_form page b).
Proof.
  unfold find_form. cbv zeta.
  apply emits_bind; [by apply emits_emit|intros _].
  pose proof (find_form_in_frames_emits (form_selector b) (frames page)).
  destruct (wait_for_selector (document page) (form_selector b)) as [[f|]|];
    [apply emits_ret| |]; destruct (form_in_iframe b); done || apply emits_ret.
Qed.

(** The two ways [apply_to_job] ends once the board is known: after the
    navigation and the probes [es], either the page is dumped and the job
    fails, or the form is filled (events [es3]), the operator confirms, and
    the URL is saved and logged. *)
Lemma apply_to_job_cases (env : Env) (url : string) (cfg : Config) (bid : string)
    (b : Board) (i total : nat) (w : World) :
  get_board bid = Some b →
  ∃ es, Forall probe_event es ∧
    (apply_to_job env url cfg bid i total w =
       (false, (dump_page (web env url) (add_events (Goto url :: es) w)).2) ∨
     ∃ es3 title company,
       Forall form_event es3 ∧
       apply_to_job env url cfg bid i total w =
       (true,
        (log_application url title company (name b)
           (save_applied_job url
              (add_events (Goto url :: es ++ es3 ++ [AwaitEnter]) w)).2).2)).
Proof.
  intros Hb. unfold apply_to_job. rewrite Hb. cbv zeta.
  rewrite bind_eq. simpl. rewrite bind_eq.
  destruct (get_job_context_emits (web env url) b (add_events [Goto url] w))
    as (es1 & E1 & H1).
  rewrite E1, add_events_add.
  set (ctx := (get_job_context (web env url) b (add_events [Goto url] w)).1).
  rewrite bind_eq.
  destruct (find_form_emits (web env url) b (add_events ([Goto url] ++ es1) w))
    as (es2 & E2 & H2).
  rewrite E2, add_events_add.
  exists (es1 ++ es2). split; [by apply Forall_app|].
  destruct ((find_form (web env url) b (add_events ([Goto url] ++ es1) w)).1)
    as [[form form_page]|].
  - right. rewrite bind_eq.
    destruct (fill_form_with_board_emits env form_page b cfg ctx.1 ctx.2
                (add_events (([Goto url] ++ es1) ++ es2) w)) as (es3 & E3 & H3).
    rewrite E3, add_events_add.
    exists es3, ctx.1, ctx.2. split; [done|].
    rewrite bind_eq. simpl. rewrite add_events_add.
    rewrite !bind_eq. simpl.
    unfold ret. rewrite <- (app_assoc (es1 ++ es2)). reflexivity.
  - left. rewrite bind_eq. reflexivity.
Qed.



(** X16. When [apply_to_job] returns False, for an unknown board or for a
    missing form, the applied-jobs file, the log and the progress file are
    untouched and the operator was never asked to confirm. *)
Theorem apply_to_job_failure (env : Env) (url : string) (cfg : Config)
    (bid : string) (i total : nat) (w : World) :
  (apply_to_job env url cfg bid i total w).1 = false →
  let w' := (apply_to_job env url cfg bid i total w).2 in
  applied_jobs_json w' = applied_jobs_json w ∧
  applications_log w' = applications_log w ∧
  progress_json w' = progress_json w ∧
  ∃ es, trace w' = trace w ++ es ∧ Forall not_enter es.
Proof.
  intros Hf w'. subst w'.
  destruct (get_board bid) as [b|] eqn:Hb.
  2:{ rewrite apply_to_job_unknown_board by done. simpl.
      repeat split. exists []. by rewrite app_nil_r. }
  destruct (apply_to_job_cases env url cfg bid b i total w Hb)
    as (es & Hes & [E|(es3 & title & company & H3 & E)]).
  2:{ rewrite E in Hf. done. }
  rewrite E. unfold dump_page.
  assert (Forall not_enter (Goto url :: es)) as Hne.
  { constructor; [done|]. eapply Forall_impl; [exact Hes|]. by intros []. }
  destruct (content (web env url)); simpl; repeat split; by eexists.
Qed.

Lemma apply_to_job_failure_witness :
  let w' := (apply_to_job Sample.site Sample.url2 Sample.profile "lever" 1 1
               Sample.fresh).2 in
  applied_jobs_json w' = applied_jobs_json Sample.fresh ∧
  applications_log w' = applications_log Sample.fresh ∧
  progress_json w' = progress_json Sample.fresh ∧
  ∃ es, trace w' = trace Sample.fresh ++ es ∧ Forall not_enter es.
Proof.
  apply (apply_to_job_failure Sample.site Sample.url2 Sample.profile "lever" 1 1
           Sample.fresh).
  reflexivity.
Defined.

(** ** Navigation of a run *)

Lemma gotos_app (es1 es2 : list Event) : gotos (es1 ++ es2) = gotos es1 ++ gotos es2.
Proof. apply omap_app. Qed.

Lemma gotos_none (P : Event → Prop) (es : list Event) :
  (∀ e, P e → not_goto e) → Forall P es → gotos es = [].
Proof.
  intros HP H. induction H as [|e es He _ IH]; [done|].
  apply HP in He. destruct e; try done; exact IH.
Qed.

Lemma apply_to_job_gotos (env : Env) (url : string) (cfg : Config) (bid : string)
    (i total : nat) (w : World) :
  ∃ es, trace (apply_to_job env url cfg bid i total w).2 = trace w ++ es ∧
        gotos es = if decide (registered bid) then [url] else [].
Proof.
  destruct (decide (registered bid)) as [[b Hb]|Hno].
  2:{ rewrite apply_to_job_unknown_board.
      - exists []. simpl. by rewrite app_nil_r.
      - unfold registered in Hno. destruct (get_board bid); [|done].
        destruct Hno. by eexists. }
  destruct (apply_to_job_cases env url cfg bid b i total w Hb)
    as (es & Hes & [E|(es3 & title & company & H3 & E)]); rewrite E.
  - exists (Goto url :: es). split.
    + unfold dump_page. by destruct (content (web env url)).
    + change (gotos (Goto url :: es)) with (url :: gotos es).
      rewrite (gotos_none probe_event); [done| |done]. by intros [].
  - exists (Goto url :: es ++ es3 ++ [AwaitEnter]). split; [done|].
    change (gotos (Goto url :: es ++ es3 ++ [AwaitEnter]))
      with (url :: gotos (es ++ es3 ++ [AwaitEnter])).
    rewrite !gotos_app, (gotos_none probe_event es), (gotos_none form_event es3);
      [done| |done| |done]; by intros [].
Qed.

Lemma per_job_loop_gotos (cfg : Config) (env : Env) (job_urls todo : list string)
    (i : nat) (w : World) :
  ∃ es, trace (per_job_loop cfg env job_urls i todo w).2 = trace w ++ es ∧
        gotos es = with_known_board cfg todo.
Proof.
  revert i w. induction todo as [|url rest IH]; intros i w.
  - exists []. simpl. by rewrite app_nil_r.
  - change (per_job_loop cfg env job_urls i (url :: rest) w)
      with (per_job_loop cfg env job_urls (S i) rest
              (process_job cfg env job_urls i url w).2).
    destruct (IH (S i) (process_job cfg env job_urls i url w).2) as (es2 & E2 & G2).
    destruct (apply_to_job_gotos env url cfg (board_for cfg url) (i + 1)
                (length job_urls) w) as (es1 & E1 & G1).
    exists (es1 ++ es2). split.
    + rewrite E2. unfold process_job. rewrite bind_eq. simpl.
      by rewrite E1, app_assoc.
    + rewrite gotos_app, G1, G2. unfold with_known_board.
      rewrite filter_cons. by destruct (decide (registered (board_for cfg url))).
Qed.

Lemma main_eq (args : Args) (cfg : Config) (env : Env) (w : World) :
  main args cfg env w =
  match (prepare_run args cfg env w).1 with
  | None => (tt, (prepare_run args cfg env w).2)
  | Some l =>
      (tt, add_events [Close]
             (clear_progress
                (per_job_loop cfg env l 0 l (prepare_run args cfg env w).2).2).2)
  end.
Proof.
  unfold main. rewrite bind_eq.
  destruct ((prepare_run args cfg env w).1); [|done].
  rewrite !bind_eq. reflexivity.
Qed.

(** What [prepare_run] leaves behind: the applied-jobs file and the log are
    as before, the only navigation is the search, nobody is asked to confirm,
    and the list handed to the loop is [run_list], which is then not empty.
    When it ends the run, the browser was never launched or has been closed
    again; when it hands over to the loop, the browser is open. *)
Lemma prepare_run_summary (args : Args) (cfg : Config) (env : Env) (w : World) :
  let r := prepare_run args cfg env w in
  applied_jobs_json r.2 = applied_jobs_json w ∧
  applications_log r.2 = applications_log w ∧
  ∃ es, trace r.2 = trace w ++ es ∧
        gotos es = search_navigation args cfg ∧
        confirmations es = 0 ∧
        (r.1 = None ∧ run_list args cfg env w = [] ∧
         (es = [] ∨ ∃ mid, es = Launch :: mid ++ [Close] ∧ Forall inside_session mid) ∨
         r.1 = Some (run_list args cfg env w) ∧ run_list args cfg env w ≠ [] ∧
         ∃ mid, es = Launch :: mid ∧ Forall inside_session mid).
Proof.
  intros r. subst r. unfold run_list, search_navigation.
  assert (Forall inside_session (search_events args cfg)) as Hsearch.
  { repeat constructor; discriminate. }
  destruct (decide (job_urls cfg = [])) as [Hs|Hm].
  - rewrite (prepare_run_search args cfg env w Hs), Hs.
    destruct (nonempty (not_applied (applied_set w) (search_links args cfg env)))
      as [l|] eqn:En; simpl.
    + split; [done|]. split; [done|].
      exists (Launch :: search_events args cfg).
      split; [done|]. split; [done|]. split; [done|].
      right. split; [done|]. split; [|by eexists].
      unfold nonempty in En.
      destruct (not_applied (applied_set w) (search_links args cfg env)); [done|].
      by injection En as <-.
    + split; [done|]. split; [done|].
      exists (Launch :: search_events args cfg ++ [Close]).
      split; [done|]. split; [done|]. split; [done|].
      left. split; [done|]. split; [done|]. right. by eexists.
  - rewrite (prepare_run_manual args cfg env w Hm).
    destruct (job_urls cfg) as [|u0 l0] eqn:Ej; [done|].
    assert (applied_jobs_json (choose_job_list args cfg (applied_set w) w).2
              = applied_jobs_json w ∧
            applications_log (choose_job_list args cfg (applied_set w) w).2
              = applications_log w ∧
            trace (choose_job_list args cfg (applied_set w) w).2 = trace w)
      as (Ha & Hl & Ht).
    { by destruct (choose_job_list_world args cfg (applied_set w) w) as [-> | ->]. }
    destruct ((choose_job_list args cfg (applied_set w) w).1.2) as [|u l]; simpl.
    + split; [done|]. split; [done|]. exists [].
      rewrite app_nil_r. split; [done|]. split; [done|]. split; [done|].
      left. split; [done|]. split; [done|]. by left.
    + split; [done|]. split; [done|]. exists [Launch].
      rewrite Ht. split; [done|]. split; [done|]. split; [done|].
      right. split; [done|]. split; [done|]. by exists [].
Qed.

Lemma main_gotos (args : Args) (cfg : Config) (env : Env) (w : World) :
  ∃ es, trace (main args cfg env w).2 = trace w ++ es ∧
        gotos es = search_navigation args cfg ++
                   with_known_board cfg (run_list args cfg env w).
Proof.
  rewrite main_eq.
  destruct (prepare_run_summary args cfg env w)
    as (_ & _ & es0 & E0 & G0 & _ & [(-> & -> & _)|(-> & Hne & _)]).
  - exists es0. simpl. split; [done|]. by rewrite G0, app_nil_r.
  - destruct (per_job_loop_gotos cfg env (run_list args cfg env w)
                (run_list args cfg env w) 0 (prepare_run args cfg env w).2)
      as (es1 & E1 & G1).
    exists (es0 ++ es1 ++ [Close]). simpl. split.
    + by rewrite E1, E0, <- !app_assoc.
    + rewrite !gotos_app, G0, G1. simpl. by rewrite app_nil_r.
Qed.


Lemma run_list_plain (args : Args) (cfg : Config) (env : Env) (w : World) :
  resume args = false ∨ job_urls cfg = [] →
  run_list args cfg env w =
  not_applied (applied_set w) (current_worklist args cfg env).
Proof.
  intros H. unfold current_worklist.
  destruct (job_urls cfg) as [|u l] eqn:Ej.
  - by apply run_list_search.
  - destruct H as [Hr|?]; [|done].
    rewrite run_list_manual by (by rewrite Ej).
    unfold choose_job_list. rewrite Ej, Hr. reflexivity.
Qed.

(** X18. A run that is not resumed, or whose worklist comes from search,
    iterates exactly the URLs of the worklist that are not in the applied set
    it starts from, in their original order. *)
Theorem plain_run_worklist (args : Args) (cfg : Config) (env : Env) (w : World) :
  resume args = false ∨ job_urls cfg = [] →
  run_list args cfg env w =
  not_applied (applied_set w) (current_worklist args cfg env).
Proof.
  intros H. unfold current_worklist.
  destruct (job_urls cfg) as [|u l] eqn:Ej.
  - by apply run_list_search.
  - destruct H as [Hr|?]; [|done].
    rewrite run_list_manual by (by rewrite Ej).
    unfold choose_job_list. rewrite Ej, Hr. reflexivity.
Qed.

Lemma plain_run_worklist_witness :
  run_list Sample.plain_run Sample.profile_with_urls Sample.site Sample.applied_once
  = [Sample.url2; Sample.url3].
Proof.
  apply (plain_run_worklist Sample.plain_run Sample.profile_with_urls Sample.site
           Sample.applied_once).
  left. reflexivity.
Defined.

(** X19. A run that is not resumed, or whose worklist comes from search,
    never navigates to a URL that was in the applied set when it started:
    every page it visits is the search page or a URL not yet applied to. *)
Theorem plain_run_never_revisits (args : Args) (cfg : Config) (env : Env)
    (w : World) :
  resume args = false ∨ job_urls cfg = [] →
  ∃ es, trace (main args cfg env w).2 = trace w ++ es ∧
        ∀ url, url ∈ gotos es →
               url ∈ search_navigation args cfg ∨ url ∉ applied_set w.
Proof.
  intros H. destruct (main_gotos args cfg env w) as (es & E & G).
  exists es. split; [done|]. intros url Hin. rewrite G in Hin.
  apply elem_of_app in Hin as [?|Hin]; [by left|]. right.
  rewrite run_list_plain in Hin by done.
  unfold with_known_board, not_applied in Hin.
  apply list_elem_of_filter in Hin as [_ Hin].
  by apply list_elem_of_filter in Hin as [Hna _].
Qed.

Lemma plain_run_never_revisits_witness :
  ∃ es, trace (main Sample.plain_run Sample.profile_with_urls Sample.site
                 Sample.applied_once).2
        = trace Sample.applied_once ++ es ∧
        ∀ url, url ∈ gotos es →
               url ∈ search_navigation Sample.plain_run Sample.profile_with_urls ∨
               url ∉ applied_set Sample.applied_once.
Proof.
  apply (plain_run_never_revisits Sample.plain_run Sample.profile_with_urls
           Sample.site Sample.applied_once).
  left. reflexivity.
Defined.

(** ** How a run ends *)

Lemma choose_job_list_resumed (args : Args) (cfg : Config) (applied : gset string)
    (w : World) :
  resume args = true → job_urls cfg ≠ [] →
  (choose_job_list args cfg applied w).2 = w.
Proof.
  intros Hr Hm. unfold choose_job_list.
  destruct (job_urls cfg); [done|]. rewrite Hr, bind_eq. simpl.
  destruct (progress_json w) as [p|]; [|done].
  by destruct (progress_truthy p && _).
Qed.




(** X21. A resumed run over a configured URL list that has nothing left to
    iterate returns at once and changes nothing: no browser event, no file
    written, and the saved progress stays in place. *)
Theorem resumed_run_with_nothing_left (args : Args) (cfg : Config) (env : Env)
    (w : World) :
  resume args = true →
  job_urls cfg ≠ [] →
  run_list args cfg env w = [] →
  main args cfg env w = (tt, w).
Proof.
  intros Hr Hm Hl. apply main_returns_early.
  rewrite (prepare_run_manual args cfg env w Hm).
  rewrite run_list_manual in Hl by done. rewrite Hl.
  by rewrite choose_job_list_resumed.
Qed.

Lemma resumed_run_with_nothing_left_witness :
  let w := {| applied_jobs_json := None;
              progress_json :=
                Some {| saved_job_urls := Some [Sample.url1; Sample.url2; Sample.url3];
                        saved_last_index := Some 2%Z |};
              applications_log := []; debug_page_html := None; trace := [] |} in
  main Sample.resumed_run Sample.profile_with_urls Sample.site w = (tt, w).
Proof.
  intros w.
  apply (resumed_run_with_nothing_left Sample.resumed_run Sample.profile_with_urls
           Sample.site w); [reflexivity|discriminate|reflexivity].
Defined.

(** ** Records are never lost *)

Lemma keeps_records_weaken (urls urls' : gset string) {A} (m : Run A) :
  urls ⊆ urls' → keeps_records urls m → keeps_records urls' m.
Proof.
  intros Hsub Hm w. destruct (Hm w) as (H1 & H2 & H3).
  repeat split; [done| |done].
  etrans; [exact H2|]. by apply union_mono_l.
Qed.

Lemma keeps_records_same (urls : gset string) {A} (m : Run A) :
  (∀ w, applied_jobs_json (m w).2 = applied_jobs_json w ∧
        applications_log (m w).2 = applications_log w) →
  keeps_records urls m.
Proof.
  intros H w. destruct (H w) as [Ha El]. unfold applied_set. simpl.
  rewrite Ha, El. repeat split; [done|apply union_subseteq_l|done].
Qed.

Lemma keeps_records_browses (urls : gset string) {A} (m : Run A) :
  only_browses m → keeps_records urls m.
Proof.
  intros H. apply keeps_records_same. intros w.
  destruct (H w) as [es ->]. done.
Qed.

Lemma keeps_records_ret (urls : gset string) {A} (a : A) : keeps_records urls (ret a).
Proof. by apply keeps_records_same. Qed.

Lemma keeps_records_bind (urls : gset string) {A B} (m : Run A) (k : A → Run B) :
  keeps_records urls m → (∀ a, keeps_records urls (k a)) →
  keeps_records urls (bind m k).
Proof.
  intros Hm Hk w. rewrite bind_eq.
  destruct (Hm w) as (H1 & H2 & H3).
  destruct (Hk (m w).1 (m w).2) as (K1 & K2 & K3).
  split; [by etrans|]. split; [|by etrans].
  etrans; [exact K2|].
  apply union_least; [done|apply union_subseteq_r].
Qed.

Lemma keeps_records_save_applied_job (urls : gset string) (url : string) :
  url ∈ urls → keeps_records urls (save_applied_job url).
Proof.
  intros Hin w. unfold applied_set. rewrite load_after_save. simpl.
  split; [apply union_subseteq_l|]. split; [|done].
  apply union_mono_l. by apply singleton_subseteq_l.
Qed.

Lemma keeps_records_log_application (urls : gset string)
    (url title company board_name : string) :
  keeps_records urls (log_application url title company board_name).
Proof.
  intros w. unfold applied_set. simpl.
  split; [done|]. split; [apply union_subseteq_l|]. by apply prefix_app_r.
Qed.

Lemma keeps_records_apply_to_job (urls : gset string) (env : Env) (url : string)
    (cfg : Config) (bid : string) (i total : nat) :
  url ∈ urls → keeps_records urls (apply_to_job env url cfg bid i total).
Proof.
  intros Hin. unfold apply_to_job.
  destruct (get_board bid) as [b|]; [|apply keeps_records_ret].
  cbv zeta.
  apply keeps_records_bind;
    [apply keeps_records_browses, only_browses_emit|intros _].
  apply keeps_records_bind;
    [apply keeps_records_browses, get_job_context_browses|intros ctx].
  apply keeps_records_bind;
    [apply keeps_records_browses, find_form_browses|intros found].
  destruct found as [[form form_page]|].
  - apply keeps_records_bind;
      [apply keeps_records_browses, fill_form_with_board_browses|intros _].
    apply keeps_records_bind;
      [apply keeps_records_browses, only_browses_emit|intros _].
    apply keeps_records_bind;
      [by apply keeps_records_save_applied_job|intros _].
    apply keeps_records_bind;
      [apply keeps_records_log_application|intros _].
    apply keeps_records_ret.
  - apply keeps_records_bind; [|intros _; apply keeps_records_ret].
    apply keeps_records_same. intros w. unfold dump_page.
    by destruct (content (web env url)).
Qed.

Lemma keeps_records_per_job_loop (urls : gset string) (cfg : Config) (env : Env)
    (job_urls todo : list string) (i : nat) :
  list_to_set todo ⊆ urls →
  keeps_records urls (per_job_loop cfg env job_urls i todo).
Proof.
  revert i. induction todo as [|url rest IH]; intros i Hsub; simpl.
  - apply keeps_records_ret.
  - rewrite list_to_set_cons in Hsub.
    apply keeps_records_bind; [|intros _; apply IH].
    + unfold process_job. cbv zeta.
      apply keeps_records_bind; [|intros _; by apply keeps_records_same].
      apply keeps_records_apply_to_job.
      apply Hsub, elem_of_union_l. by apply elem_of_singleton.
    + etrans; [|exact Hsub]. apply union_subseteq_r.
Qed.

Lemma applied_set_eq (w w' : World) :
  applied_jobs_json w' = applied_jobs_json w → applied_set w' = applied_set w.
Proof. unfold applied_set. simpl. by intros ->. Qed.

(** X22. A run, completed or interrupted after any number of jobs, never
    removes a URL from the applied set nor a line from the log, and the only
    URLs it can add to the applied set are those of the list it iterates. *)
Theorem run_keeps_records (k : nat) (args : Args) (cfg : Config) (env : Env) :
  ∀ w,
    let urls : gset string := list_to_set (run_list args cfg env w) in
    (applied_set w ⊆ applied_set (main args cfg env w).2 ∧
     applied_set (main args cfg env w).2 ⊆ applied_set w ∪ urls ∧
     applications_log w `prefix_of` applications_log (main args cfg env w).2) ∧
    (applied_set w ⊆ applied_set (main_interrupted k args cfg env w).2 ∧
     applied_set (main_interrupted k args cfg env w).2 ⊆ applied_set w ∪ urls ∧
     applications_log w `prefix_of`
       applications_log (main_interrupted k args cfg env w).2).
Proof.
  intros w urls.
  destruct (prepare_run_summary args cfg env w)
    as (Ha & Hlog & es0 & _ & _ & _ & Hcase).
  assert ((prepare_run args cfg env w).1 = None ∨
          (prepare_run args cfg env w).1 = Some (run_list args cfg env w))
    as Hcase' by (destruct Hcase as [(? & _)|(? & _)]; [by left|by right]).
  clear Hcase. rename Hcase' into Hcase.
  pose proof (applied_set_eq _ _ Ha) as Hs.
  split.
  - rewrite main_eq. destruct Hcase as [-> | ->]; simpl.
    + rewrite Hs, Hlog. repeat split; [done|apply union_subseteq_l|done].
    + destruct (keeps_records_per_job_loop urls cfg env (run_list args cfg env w)
                  (run_list args cfg env w) 0 ltac:(done)
                  (prepare_run args cfg env w).2) as (H1 & H2 & H3).
      rewrite Hs, Hlog in *. done.
  - unfold main_interrupted. rewrite bind_eq.
    destruct Hcase as [-> | ->]; simpl.
    + rewrite Hs, Hlog. repeat split; [done|apply union_subseteq_l|done].
    + destruct (keeps_records_per_job_loop urls cfg env (run_list args cfg env w)
                  (take k (run_list args cfg env w)) 0) with
        (w := (prepare_run args cfg env w).2) as (H1 & H2 & H3).
      { subst urls. intros x Hx. apply elem_of_list_to_set in Hx.
        apply elem_of_list_to_set. by eapply subseteq_take. }
      rewrite Hs, Hlog in *. done.
Qed.

(** ** Confirmations, log lines and the browser session *)










(** ** A run over search results *)





(** ** The LinkedIn label *)

(** X26. On a board that names a LinkedIn label, when no input on the page
    carries that label, the LinkedIn URL of the profile has no effect at all:
    the form is filled exactly as if no LinkedIn URL were configured, and the
    board's [linkedin_url] selectors are not probed. *)
Theorem linkedin_label_without_input (env : Env) (root : Root) (b : Board)
    (cfg : Config) (job_title company label : string) (w : World) :
  linkedin_label b = Some label →
  label ≠ EmptyString →
  label_count root label = Returned 0 →
  fill_form_with_board env root b cfg job_title company w =
  fill_form_with_board env root b (without_linkedin cfg) job_title company w.
Proof.
  intros Hl Hne Hc. unfold fill_form_with_board, without_linkedin. simpl.
  rewrite Hl, Hc.
  destruct label; [done|]. simpl.
  by destruct (PyStr.truthy (linkedin_url cfg)).
Qed.

Lemma linkedin_label_without_input_witness :
  let cfg := {| job_urls := []; job_search_query := None; board := None;
                first_name := "Ada"; last_name := "Lovelace";
                email := "ada@example.org"; phone := EmptyString;
                linkedin_url := "https://www.linkedin.com/in/ada";
                resume_path := EmptyString; cover_letter := EmptyString;
                cover_letter_template := EmptyString |} in
  fill_form_with_board Sample.site Sample.email_form greenhouse cfg "SRE" "Acme"
    Sample.fresh =
  fill_form_with_board Sample.site Sample.email_form greenhouse
    (without_linkedin cfg) "SRE" "Acme" Sample.fresh.
Proof.
  intros cfg.
  apply (linkedin_label_without_input Sample.site Sample.email_form greenhouse cfg
           "SRE" "Acme" "LinkedIn Profile" Sample.fresh).
  - reflexivity.
  - discriminate.
  - reflexivity.
Defined.
